(** * qq-farm-bot: the entry point (client.js) and the credential store
      (src/codeManager.js)

    A shallow embedding of the command-line front end of the farm bot and of
    the three functions that persist the login code, followed by the
    properties of the specification that concern them.

    Conventions of the embedding.
    - A JavaScript string is a [string] holding its UTF-8 bytes; the argument
      vector, the environment and the credential file are well-formed text,
      on which the 'utf8' write and read of Node's fs are inverse.
    - A JavaScript number that the program obtains from [parseInt] is an
      integer or NaN: [option Z], [None] standing for NaN.  Rounding of
      integers beyond 2^53 is not modelled.
    - Calls into modules that are not part of the sources at hand (network,
      farm, friend, task, warehouse, status, invite, decode, qqQrLogin) are
      recorded, in program order, in the list of calls of the process.
    - Control flow is a state monad over the process with three outcomes:
      normal return, a thrown exception, and [process.exit]. *)

From Stdlib Require Import String Ascii List ZArith Lia Bool DecimalString.
Import ListNotations.

Local Open Scope string_scope.
Local Open Scope Z_scope.

(** ** JavaScript values and string primitives *)

Module JS.

(** The values that flow through the argument map: [map.set(key, true)]
    or [map.set(key, value)] with [value] a string. *)
Inductive value : Type :=
| VTrue
| VStr (s : string).

Definition truthy (v : value) : bool :=
  match v with
  | VTrue => true
  | VStr s => negb (String.eqb s "")
  end.

(** ToString *)
Definition toString (v : value) : string :=
  match v with
  | VTrue => "true"
  | VStr s => s
  end.

(** ToString of a possibly undefined string (an environment variable). *)
Definition toStringOpt (v : option string) : string :=
  match v with
  | Some s => s
  | None => "undefined"
  end.

Definition truthyOpt (v : option string) : bool :=
  match v with
  | Some s => negb (String.eqb s "")
  | None => false
  end.

Definition utf8 (bytes : list Z) : string :=
  string_of_list_ascii (map (fun b => ascii_of_N (Z.to_N b)) bytes).

(** WhiteSpace and LineTerminator of ECMAScript, each as its UTF-8
    encoding: TAB LF VT FF CR SP, U+00A0, U+1680, U+2000..U+200A, U+2028,
    U+2029, U+202F, U+205F, U+3000, U+FEFF. *)
Definition whiteSpace : list string := Eval vm_compute in
  [ utf8 [9]; utf8 [10]; utf8 [11]; utf8 [12]; utf8 [13]; utf8 [32];
    utf8 [194; 160];
    utf8 [225; 154; 128];
    utf8 [226; 128; 128]; utf8 [226; 128; 129]; utf8 [226; 128; 130];
    utf8 [226; 128; 131]; utf8 [226; 128; 132]; utf8 [226; 128; 133];
    utf8 [226; 128; 134]; utf8 [226; 128; 135]; utf8 [226; 128; 136];
    utf8 [226; 128; 137]; utf8 [226; 128; 138];
    utf8 [226; 128; 168]; utf8 [226; 128; 169];
    utf8 [226; 128; 175];
    utf8 [226; 129; 159];
    utf8 [227; 128; 128];
    utf8 [239; 187; 191] ].

(** [dropPrefix p s] is the rest of [s] after its prefix [p]. *)
Fixpoint dropPrefix (p s : string) : option string :=
  match p with
  | EmptyString => Some s
  | String a p' =>
      match s with
      | EmptyString => None
      | String b s' => if Ascii.eqb a b then dropPrefix p' s' else None
      end
  end.

Definition startsWith (s p : string) : bool :=
  match dropPrefix p s with
  | Some _ => true
  | None => false
  end.

Fixpoint stripOneOf (tokens : list string) (s : string) : option string :=
  match tokens with
  | [] => None
  | t :: ts =>
      match dropPrefix t s with
      | Some rest => Some rest
      | None => stripOneOf ts s
      end
  end.

(** One white-space character removed from the front, if there is one. *)
Definition stripWhiteSpace (s : string) : option string :=
  stripOneOf whiteSpace s.

Fixpoint trimStartLoop (fuel : nat) (s : string) : string :=
  match stripWhiteSpace s with
  | None => s
  | Some rest =>
      match fuel with
      | O => s
      | S fuel' => trimStartLoop fuel' rest
      end
  end.

Definition trimStart (s : string) : string :=
  trimStartLoop (String.length s) s.

Definition reverse (s : string) : string :=
  string_of_list_ascii (rev (list_ascii_of_string s)).

Definition stripWhiteSpaceEnd (s : string) : option string :=
  stripOneOf (map reverse whiteSpace) s.

Fixpoint trimEndLoop (fuel : nat) (r : string) : string :=
  match stripWhiteSpaceEnd r with
  | None => r
  | Some rest =>
      match fuel with
      | O => r
      | S fuel' => trimEndLoop fuel' rest
      end
  end.

(** The loop runs on the reversed string. *)
Definition trimEnd (s : string) : string :=
  reverse (trimEndLoop (String.length s) (reverse s)).

(** String.prototype.trim *)
Definition trim (s : string) : string :=
  trimEnd (trimStart s).

Definition leadingWhiteSpace (s : string) : bool :=
  match stripWhiteSpace s with
  | Some _ => true
  | None => false
  end.

Definition trailingWhiteSpace (s : string) : bool :=
  match stripWhiteSpaceEnd (reverse s) with
  | Some _ => true
  | None => false
  end.

(** A text made of white-space characters only. *)
Inductive WhiteSpaceOnly : string -> Prop :=
| wso_empty : WhiteSpaceOnly ""
| wso_more (t s : string) :
    In t whiteSpace -> WhiteSpaceOnly s -> WhiteSpaceOnly (t ++ s).

(** Value of a digit in radices up to 36. *)
Definition digitValue (c : ascii) : option Z :=
  let n := Z.of_nat (nat_of_ascii c) in
  if (48 <=? n) && (n <=? 57) then Some (n - 48)
  else if (97 <=? n) && (n <=? 122) then Some (n - 97 + 10)
  else if (65 <=? n) && (n <=? 90) then Some (n - 65 + 10)
  else None.

(** The longest prefix of radix-[R] digits, as a number; [acc] is [None]
    until a digit has been read. *)
Fixpoint readDigits (R : Z) (s : string) (acc : option Z) : option Z :=
  match s with
  | EmptyString => acc
  | String c rest =>
      match digitValue c with
      | Some d =>
          if d <? R
          then readDigits R rest
                 (Some (match acc with Some a => a * R + d | None => d end))
          else acc
      | None => acc
      end
  end.

(** [parseInt(string)] with no radix argument: leading white space, a
    sign, a 0x or 0X prefix selecting radix 16, then digits.  [None] is
    NaN. *)
Definition parseInt (input : string) : option Z :=
  let S0 := trimStart input in
  let '(sign, S1) :=
    match S0 with
    | String "-" r => (-1, r)
    | String "+" r => (1, r)
    | _ => (1, S0)
    end in
  let '(R, S2) :=
    match S1 with
    | String "0" (String "x" r) => (16, r)
    | String "0" (String "X" r) => (16, r)
    | _ => (10, S1)
    end in
  match readDigits R S2 None with
  | Some n => Some (sign * n)
  | None => None
  end.

(** Truthiness of a number: neither NaN nor zero. *)
Definition truthyNum (n : option Z) : bool :=
  match n with
  | Some z => negb (z =? 0)
  | None => false
  end.

(** [n || 0] *)
Definition orZero (n : option Z) : option Z :=
  if truthyNum n then n else Some 0.

(** ToString of an integer, as in a template literal. *)
Definition numberToString (z : Z) : string :=
  NilZero.string_of_int (Z.to_int z).

(** Array.prototype.includes on an array of strings. *)
Definition includes (l : list string) (x : string) : bool :=
  existsb (String.eqb x) l.

End JS.

(** ** The process: configuration, credential file, recorded calls *)

Module Runtime.

Inductive Sink : Type := Logger | Console.
Inductive Level : Type := Info | Warn | Error.

(** Functions handed to [setTimeout]. *)
Inductive Callback : Type := DebugSellFruits.

(** Calls that leave the modelled sources, with their arguments. *)
Inductive Call : Type :=
| LoadProto
| VerifyMode
| DecodeMode (args : list string)
| ShowHelp
| Print (sink : Sink) (level : Level) (text : string)
| PrintStartup (sink : Sink) (platformName preview : string)
    (farmMs friendMs : Z)
| GetQQFarmCodeByScan
| StdoutWrite (text : string)
| InitStatusBar
| SetStatusPlatform (platform : string)
| EmitRuntimeHint (force : bool)
| Connect (code : JS.value)
| ProcessInviteCodes
| StartFarmCheckLoop
| StartFriendCheckLoop
| InitTaskSystem
| SetTimeout (callback : Callback) (ms : Z)
| StartSellLoop (ms : Z)
| CleanupStatusBar
| StopFarmCheckLoop
| StopFriendCheckLoop
| CleanupTaskSystem
| StopSellLoop
| Cleanup
| WsClose
| Sleep (ms : Z)
| FsExistsSync
| FsReadFileSync
| FsWriteFileSync (data : string)
| FsUnlinkSync.

(** The one path the credential store touches, [CODE_FILE], and the
    errors the file system answers with: [Some message] in a fault field
    makes the corresponding system call throw that message. *)
Record FS : Type := mkFS {
  file : option string;
  writeFault : option string;
  readFault : option string;
  unlinkFault : option string
}.

(** The fields of [CONFIG] (src/config.js) that the entry point reads or
    writes. *)
Record CONFIG : Type := mkCONFIG {
  platform : string;
  farmCheckInterval : Z;
  friendCheckInterval : Z
}.

(** The [options] object of [main]; [useSavedCode] is false while the
    property is undefined. *)
Record Options : Type := mkOptions {
  code : JS.value;
  qrLogin : bool;
  useSavedCode : bool
}.

Record Process : Type := mkProcess {
  config : CONFIG;
  disk : FS;
  calls : list Call;
  exited : option Z;           (* the argument of process.exit *)
  options : Options;           (* captured by the login callbacks *)
  loginAttemptCount : Z;
  scans : nat;                 (* QR scans requested so far *)
  loginPending : bool;         (* a connect() awaits its answer *)
  socket : bool;               (* getWs() is not null *)
  onDisconnected : bool;       (* once('disconnected') is registered *)
  onSigint : bool              (* on('SIGINT') is registered *)
}.

Definition setConfig (c : CONFIG) (p : Process) : Process :=
  mkProcess c (disk p) (calls p) (exited p) (options p)
    (loginAttemptCount p) (scans p) (loginPending p) (socket p)
    (onDisconnected p) (onSigint p).

Definition setDisk (d : FS) (p : Process) : Process :=
  mkProcess (config p) d (calls p) (exited p) (options p)
    (loginAttemptCount p) (scans p) (loginPending p) (socket p)
    (onDisconnected p) (onSigint p).

Definition setCalls (l : list Call) (p : Process) : Process :=
  mkProcess (config p) (disk p) l (exited p) (options p)
    (loginAttemptCount p) (scans p) (loginPending p) (socket p)
    (onDisconnected p) (onSigint p).

Definition setExited (e : option Z) (p : Process) : Process :=
  mkProcess (config p) (disk p) (calls p) e (options p)
    (loginAttemptCount p) (scans p) (loginPending p) (socket p)
    (onDisconnected p) (onSigint p).

Definition setOptions (o : Options) (p : Process) : Process :=
  mkProcess (config p) (disk p) (calls p) (exited p) o
    (loginAttemptCount p) (scans p) (loginPending p) (socket p)
    (onDisconnected p) (onSigint p).

Definition setLoginAttemptCount (n : Z) (p : Process) : Process :=
  mkProcess (config p) (disk p) (calls p) (exited p) (options p)
    n (scans p) (loginPending p) (socket p)
    (onDisconnected p) (onSigint p).

Definition setScans (n : nat) (p : Process) : Process :=
  mkProcess (config p) (disk p) (calls p) (exited p) (options p)
    (loginAttemptCount p) n (loginPending p) (socket p)
    (onDisconnected p) (onSigint p).

Definition setLoginPending (b : bool) (p : Process) : Process :=
  mkProcess (config p) (disk p) (calls p) (exited p) (options p)
    (loginAttemptCount p) (scans p) b (socket p)
    (onDisconnected p) (onSigint p).

Definition setSocket (b : bool) (p : Process) : Process :=
  mkProcess (config p) (disk p) (calls p) (exited p) (options p)
    (loginAttemptCount p) (scans p) (loginPending p) b
    (onDisconnected p) (onSigint p).

Definition setOnDisconnected (b : bool) (p : Process) : Process :=
  mkProcess (config p) (disk p) (calls p) (exited p) (options p)
    (loginAttemptCount p) (scans p) (loginPending p) (socket p)
    b (onSigint p).

Definition setOnSigint (b : bool) (p : Process) : Process :=
  mkProcess (config p) (disk p) (calls p) (exited p) (options p)
    (loginAttemptCount p) (scans p) (loginPending p) (socket p)
    (onDisconnected p) b.

(** What the process is started with and cannot change. *)
Inductive ScanResult : Type :=
| Scanned (code : string)
| ScanFailed (message : string).

Record World : Type := mkWorld {
  argv : list string;                (* process.argv.slice(2) *)
  env : string -> option string;     (* process.env *)
  isTTY : bool;                      (* process.stdout.isTTY *)
  qrScan : nat -> ScanResult         (* answer to the n-th QR scan *)
}.

(** *** Control flow *)

Inductive Outcome (A : Type) : Type :=
| Ret (a : A)          (* normal completion *)
| Throw (message : string)   (* an exception, [err.message] *)
| Halt.                (* process.exit was called *)

Arguments Ret {A} a.
Arguments Throw {A} message.
Arguments Halt {A}.

Definition M (A : Type) : Type := Process -> Outcome A * Process.

Definition ret {A} (a : A) : M A := fun p => (Ret a, p).

Definition bind {A B} (m : M A) (k : A -> M B) : M B :=
  fun p =>
    match m p with
    | (Ret a, p') => k a p'
    | (Throw e, p') => (Throw e, p')
    | (Halt, p') => (Halt, p')
    end.

Definition throw {A} (message : string) : M A :=
  fun p => (Throw message, p).

(** [try { body } catch (err) { handler }]: [process.exit] is not an
    exception and passes through. *)
Definition tryCatch {A} (body : M A) (handler : string -> M A) : M A :=
  fun p =>
    match body p with
    | (Throw e, p') => handler e p'
    | r => r
    end.

Definition get : M Process := fun p => (Ret p, p).

Definition modify (f : Process -> Process) : M unit :=
  fun p => (Ret tt, f p).

Definition call (c : Call) : M unit :=
  modify (fun p => setCalls (calls p ++ [c]) p).

Definition processExit {A} (status : Z) : M A :=
  fun p => (Halt, setExited (Some status) p).

Definition when (b : bool) (m : M unit) : M unit :=
  if b then m else ret tt.

(** The state a computation leaves behind. *)
Definition exec {A} (m : M A) (p : Process) : Process := snd (m p).

End Runtime.

Import Runtime.

Declare Scope proc_scope.
Delimit Scope proc_scope with proc.
Notation "x <- m ;; k" := (bind m (fun x => k))
  (at level 100, m at next level, right associativity) : proc_scope.
Notation "m ;; k" := (bind m (fun _ => k))
  (at level 100, right associativity) : proc_scope.
Local Open Scope proc_scope.

(** ** src/logger.js, console *)

Module Log.

Definition log (tag msg : string) : M unit :=
  call (Print Logger Info ("[" ++ tag ++ "] " ++ msg)).

Definition logWarn (tag msg : string) : M unit :=
  call (Print Logger Warn ("[" ++ tag ++ "] ⚠ " ++ msg)).

Definition logError (tag msg : string) : M unit :=
  call (Print Logger Error ("[" ++ tag ++ "] " ++ msg)).

(** [console.warn(a, b)] and its siblings print their arguments separated
    by a space. *)
Definition consoleLog (text : string) : M unit :=
  call (Print Console Info text).

Definition consoleWarn (a b : string) : M unit :=
  call (Print Console Warn (a ++ " " ++ b)).

Definition consoleError (a b : string) : M unit :=
  call (Print Console Error (a ++ " " ++ b)).

End Log.

(** ** src/codeManager.js *)

Module CodeManager.

(** Node's fs on [CODE_FILE]; each call is recorded.  [existsSync] never
    throws. *)
Definition existsSync : M bool :=
  call FsExistsSync ;;
  p <- get ;;
  ret (match file (disk p) with Some _ => true | None => false end).

Definition readFileSync : M string :=
  call FsReadFileSync ;;
  p <- get ;;
  match readFault (disk p) with
  | Some e => throw e
  | None =>
      match file (disk p) with
      | Some content => ret content
      | None => throw "ENOENT: no such file or directory"
      end
  end.

Definition writeFileSync (data : string) : M unit :=
  call (FsWriteFileSync data) ;;
  p <- get ;;
  match writeFault (disk p) with
  | Some e => throw e
  | None =>
      modify (fun p =>
        setDisk (mkFS (Some data) (writeFault (disk p))
                   (readFault (disk p)) (unlinkFault (disk p))) p)
  end.

Definition unlinkSync : M unit :=
  call FsUnlinkSync ;;
  p <- get ;;
  match unlinkFault (disk p) with
  | Some e => throw e
  | None =>
      match file (disk p) with
      | Some _ =>
          modify (fun p =>
            setDisk (mkFS None (writeFault (disk p))
                       (readFault (disk p)) (unlinkFault (disk p))) p)
      | None => throw "ENOENT: no such file or directory"
      end
  end.

Definition saveCode (code : string) : M unit :=
  tryCatch
    (writeFileSync code)
    (fun err => Log.consoleWarn "[Code管理] 保存code失败:" err).

(** [None] is JavaScript's null. *)
Definition loadCode : M (option string) :=
  r <- tryCatch
         (present <- existsSync ;;
          if present then
            content <- readFileSync ;;
            let code := JS.trim content in
            (* return code || null *)
            ret (Some (if String.eqb code "" then None else Some code))
          else ret None)
         (fun err =>
            Log.consoleWarn "[Code管理] 读取code失败:" err ;;
            ret None) ;;
  match r with
  | Some returned => ret returned
  | None => ret None          (* the final return null *)
  end.

Definition deleteCode : M unit :=
  tryCatch
    (present <- existsSync ;;
     if present then unlinkSync else ret tt)
    (fun err => Log.consoleWarn "[Code管理] 删除code失败:" err).

End CodeManager.


(** ** src/network.js, as far as the entry point relies on it *)

Module Network.

(** What the session and the operating system deliver to the callbacks the
    entry point has registered. *)
Inductive Event : Type :=
| LoginSucceeded
| LoginFailed (reason : string)
| Disconnected (code : Z)
| SIGINT.

(** Modelled from the spec: [connect(credential, onSuccess, onError)] of
    src/network.js, which is not among the sources at hand.  Section 4.3:
    it opens the duplex connection and sends the login request built from
    the credential; on a successful login response it invokes the success
    callback, on a login failure response it invokes the failure callback
    with an error carrying the server-reported reason.  The call is
    recorded, the socket exists from then on, and one answer is awaited. *)
Definition connect (code : JS.value) : M unit :=
  call (Connect code) ;;
  modify (fun p => setSocket true (setLoginPending true p)).

(** The callbacks of the entry point. *)
Record Handlers : Type := mkHandlers {
  loginSuccess : M unit;
  loginError : string -> M unit;
  disconnected : Z -> M unit;
  sigint : M unit
}.

(** An exception that no handler catches ends the process with status 1. *)
Definition settle (r : Outcome unit * Process) : Process :=
  match r with
  | (Throw _, p) =>
      match exited p with
      | None => setExited (Some 1) p
      | Some _ => p
      end
  | (_, p) => p
  end.

(** Modelled from the spec: delivery of one event.  Section 4.3: the answer
    to a login goes to exactly one of the two callbacks of the pending
    [connect]; ['disconnected'] goes to the listener registered with
    [once], which is removed before it runs; SIGINT goes to the registered
    listener and otherwise kills the process.  Nothing is delivered to a
    process that has exited. *)
Definition dispatch (h : Handlers) (e : Event) (p : Process) : Process :=
  match exited p with
  | Some _ => p
  | None =>
      match e with
      | LoginSucceeded =>
          if loginPending p
          then settle (loginSuccess h (setLoginPending false p))
          else p
      | LoginFailed reason =>
          if loginPending p
          then settle (loginError h reason (setLoginPending false p))
          else p
      | Disconnected c =>
          if onDisconnected p
          then settle (disconnected h c (setOnDisconnected false p))
          else p
      | SIGINT =>
          if onSigint p
          then settle (sigint h p)
          else setExited (Some 130) p
      end
  end.

Definition deliver (h : Handlers) (events : list Event) (p : Process)
  : Process :=
  fold_left (fun q e => dispatch h e q) events p.

End Network.

Import Network.

(** ** client.js *)

Module Client.

(** A JavaScript [Map] from strings: insertion-ordered, [set] on a present
    key replaces the value in place. *)
Definition ArgsMap : Type := list (string * JS.value).

Fixpoint mapSet (key : string) (v : JS.value) (m : ArgsMap) : ArgsMap :=
  match m with
  | [] => [(key, v)]
  | (k, x) :: rest =>
      if String.eqb k key then (k, v) :: rest
      else (k, x) :: mapSet key v rest
  end.

Fixpoint mapGet (key : string) (m : ArgsMap) : option JS.value :=
  match m with
  | [] => None
  | (k, x) :: rest => if String.eqb k key then Some x else mapGet key rest
  end.

(** The [for] loop of [getArgsMap] from index [i] on, [args] being the
    elements from [i] on and [map] the map built so far. *)
Fixpoint getArgsMapLoop (args : list string) (map : ArgsMap) : ArgsMap :=
  match args with
  | [] => map
  | key :: rest =>
      if negb (JS.startsWith key "--") then
        getArgsMapLoop rest (mapSet key JS.VTrue map)      (* continue *)
      else
        match rest with
        | [] => map                          (* i >= args.length - 1: break *)
        | value :: rest' =>                  (* value = args[++i] *)
            if JS.startsWith value "--" then
              getArgsMapLoop rest' map                      (* continue *)
            else
              getArgsMapLoop rest' (mapSet key (JS.VStr value) map)
        end
  end.

Definition getArgsMap (args : list string) : ArgsMap :=
  getArgsMapLoop args [].

(** [Consumed pre]: the loop of [getArgsMap], started on a list that begins
    with [pre], takes its next key right after [pre].  That is, [pre] is
    made of bare words and of pairs of a flag and the element that follows
    it. *)
Inductive Consumed : list string -> Prop :=
| consumed_nil : Consumed []
| consumed_word (key : string) (pre : list string) :
    JS.startsWith key "--" = false -> Consumed pre -> Consumed (key :: pre)
| consumed_pair (key value : string) (pre : list string) :
    JS.startsWith key "--" = true -> Consumed pre ->
    Consumed (key :: value :: pre).

(** The variables of [parseArgs] that its loop assigns. *)
Record Locals : Type := mkLocals {
  l_options : Options;
  l_interval : option Z;
  l_friend_interval : option Z
}.

Definition setPlatform (name : string) : M unit :=
  modify (fun p =>
    setConfig (mkCONFIG name (farmCheckInterval (config p))
                 (friendCheckInterval (config p))) p).

(** The [switch (key)] of [parseArgs]. *)
Definition parseArgsCase (key : string) (value : JS.value) (l : Locals)
  : M Locals :=
  let o := l_options l in
  if String.eqb key "--code" then
    ret (mkLocals (mkOptions value (qrLogin o) (useSavedCode o))
           (l_interval l) (l_friend_interval l))
  else if String.eqb key "--qr" then
    let on := match value with
              | JS.VTrue => true
              | JS.VStr s => String.eqb s "true"
              end in
    ret (mkLocals (mkOptions (code o) on (useSavedCode o))
           (l_interval l) (l_friend_interval l))
  else if String.eqb key "--wx" then
    setPlatform "wx" ;; ret l
  else if String.eqb key "--qq" then
    setPlatform "qq" ;; ret l
  else if String.eqb key "--interval" then
    ret (mkLocals o (JS.parseInt (JS.toString value)) (l_friend_interval l))
  else if String.eqb key "--friend-interval" then
    ret (mkLocals o (l_interval l) (JS.parseInt (JS.toString value)))
  else ret l.

Fixpoint parseArgsLoop (entries : ArgsMap) (l : Locals) : M Locals :=
  match entries with
  | [] => ret l
  | (key, value) :: rest =>
      l' <- parseArgsCase key value l ;;
      parseArgsLoop rest l'
  end.

Definition parseArgs (w : World) (argsMap : ArgsMap) : M Options :=
  let options := mkOptions (JS.VStr "") false false in
  let options :=
    if JS.truthyOpt (env w "CODE")
    then mkOptions (JS.VStr (JS.toStringOpt (env w "CODE")))
           (qrLogin options) (useSavedCode options)
    else options in
  when (JS.truthyOpt (env w "PLATFORM")
        && JS.includes ["qq"; "wx"] (JS.toStringOpt (env w "PLATFORM")))
    (setPlatform (JS.toStringOpt (env w "PLATFORM"))) ;;
  let options :=
    match env w "QR_LOGIN" with
    | Some s =>
        if String.eqb s "true"
        then mkOptions (code options) true (useSavedCode options)
        else options
    | None => options
    end in
  let interval := JS.orZero (JS.parseInt (JS.toStringOpt (env w "INTERVAL"))) in
  let friend_interval :=
    JS.orZero (JS.parseInt (JS.toStringOpt (env w "FRIEND_INTERVAL"))) in
  l <- parseArgsLoop argsMap (mkLocals options interval friend_interval) ;;
  match l_interval l with
  | Some interval =>
      when (JS.truthyNum (Some interval))
        (modify (fun p =>
           setConfig (mkCONFIG (platform (config p))
                        (Z.max interval 1 * 1000)
                        (friendCheckInterval (config p))) p))
  | None => ret tt
  end ;;
  match l_friend_interval l with
  | Some friend_interval =>
      when (JS.truthyNum (Some friend_interval))
        (modify (fun p =>
           setConfig (mkCONFIG (platform (config p))
                        (farmCheckInterval (config p))
                        (Z.max friend_interval 1 * 1000)) p))
  | None => ret tt
  end ;;
  ret (l_options l).

Definition INITIAL_SELL_DELAY_MS : Z := 5000.
Definition SELL_LOOP_INTERVAL_MS : Z := 60000.
Definition RECONNECT_DELAY_MS : Z := 1000.

Definition codePreview (code : JS.value) : string :=
  match code with
  | JS.VStr s =>
      if String.eqb s "" then "(empty)"
      else String.substring 0 8 s ++ "..."
  | JS.VTrue => "(empty)"
  end.

(** [log('启动', formatStartupLog(code))]; the two intervals are recorded
    in milliseconds, the text prints them divided by 1000. *)
Definition logStartup (code : JS.value) : M unit :=
  p <- get ;;
  let platformName :=
    if String.eqb (platform (config p)) "wx" then "微信" else "QQ" in
  call (PrintStartup Logger platformName (codePreview code)
          (farmCheckInterval (config p)) (friendCheckInterval (config p))).

Definition clearScreen (w : World) : M unit :=
  when (isTTY w)
    (call (StdoutWrite (JS.utf8 [27] ++ "[2J" ++ JS.utf8 [27] ++ "[H"))).

Definition shutdownAllModules : M unit :=
  call CleanupStatusBar ;;
  call StopFarmCheckLoop ;;
  call StopFriendCheckLoop ;;
  call CleanupTaskSystem ;;
  call StopSellLoop ;;
  call Cleanup.

(** [await getQQFarmCodeByScan()]: the answer of the world to this scan, a
    code or a rejection. *)
Definition getQQFarmCodeByScan (w : World) : M string :=
  p <- get ;;
  call GetQQFarmCodeByScan ;;
  modify (fun p => setScans (S (scans p)) p) ;;
  match qrScan w (scans p) with
  | Scanned c => ret c
  | ScanFailed message => throw message
  end.

Definition acquireCodeByQrScan (w : World) (context : string) : M string :=
  Log.log "扫码登录" (context ++ "...") ;;
  c <- getQQFarmCodeByScan w ;;
  Log.log "扫码登录" ("获取成功，code=" ++ codePreview (JS.VStr c)) ;;
  CodeManager.saveCode c ;;
  ret c.

Definition close : M unit :=
  shutdownAllModules ;;
  Log.log "退出" "正在断开..." ;;
  p <- get ;;                       (* const ws = getWs() *)
  when (socket p) (call WsClose) ;;
  processExit 0.

Definition onLoginSuccess : M unit :=
  call ProcessInviteCodes ;;
  call StartFarmCheckLoop ;;
  p <- get ;;
  when (farmCheckInterval (config p) >? 0) (call StartFriendCheckLoop) ;;
  call InitTaskSystem ;;
  call (SetTimeout DebugSellFruits INITIAL_SELL_DELAY_MS) ;;
  call (StartSellLoop SELL_LOOP_INTERVAL_MS).

Definition onLoginError (err : string) : M unit :=
  Log.logWarn "登录" ("失败: " ++ err) ;;
  Log.log "Code管理" "旧code已失效，正在删除..." ;;
  CodeManager.deleteCode ;;
  close.

Definition onDisconnected (c : Z) : M unit :=
  Log.log "退出" ("连接已断开 (code=" ++ JS.numberToString c ++ ")") ;;
  close.

Definition handlers : Handlers :=
  mkHandlers onLoginSuccess onLoginError onDisconnected close.

(** The body of [main].  [options.deleteAccountMode] is never assigned, so
    the check on it never fires and is left out. *)
Definition main (w : World) : M unit :=
  let args := argv w in
  call LoadProto ;;
  if JS.includes args "--verify" then call VerifyMode
  else if JS.includes args "--decode" then call (DecodeMode args)
  else
    let argsMap := getArgsMap args in
    options <- parseArgs w argsMap ;;
    (* the saved code, when no code was passed *)
    p <- get ;;
    options <-
      (if negb (JS.truthy (code options))
          && String.eqb (platform (config p)) "qq"
       then
         savedCode <- CodeManager.loadCode ;;
         match savedCode with
         | Some saved =>
             Log.log "Code管理"
               "检测到已保存的code，将优先尝试使用旧code登录" ;;
             ret (mkOptions (JS.VStr saved) (qrLogin options) true)
         | None => ret options
         end
       else ret options) ;;
    (* still no code: scan *)
    r <-
      (if negb (JS.truthy (code options))
          && String.eqb (platform (config p)) "qq"
          && (qrLogin options || negb (JS.includes args "--code"))
       then
         c <- acquireCodeByQrScan w "正在获取二维码" ;;
         ret (mkOptions (JS.VStr c) (qrLogin options) (useSavedCode options),
              true)
       else ret (options, false)) ;;
    let '(options, usedQrLogin) := r in
    modify (setOptions options) ;;
    (* validation *)
    (if negb (JS.truthy (code options)) then
       when (String.eqb (platform (config p)) "wx")
         (Log.log "参数" "微信模式仍需通过 --code 传入登录凭证") ;;
       call ShowHelp ;;
       processExit 1
     else ret tt) ;;
    when usedQrLogin (clearScreen w) ;;
    call InitStatusBar ;;
    call (SetStatusPlatform (platform (config p))) ;;
    call (EmitRuntimeHint true) ;;
    logStartup (code options) ;;
    connect (code options) ;;
    modify (setOnDisconnected true) ;;        (* networkEvents.once *)
    modify (setOnSigint true).                (* process.on('SIGINT') *)

(** [main().catch(...)] *)
Definition program (w : World) : M unit :=
  tryCatch (main w)
    (fun err =>
       Log.logError "启动" ("失败: " ++ err) ;;
       processExit 1).

(** The process after [main] has run from the initial state [p]. *)
Definition boot (w : World) (p : Process) : Process :=
  exec (program w) p.

(** ... and after the given events have been delivered, in order. *)
Definition run (w : World) (events : list Event) (p : Process) : Process :=
  deliver handlers events (boot w p).

End Client.

(** ** The second copy of the entry point (src/unnamed/part_000)

    [getArgsMap], [parseArgs] and the start of the loops are as in
    client.js; the copy prints with [console], registers no listener for
    ['disconnected'] and answers a failed login differently. *)

Module Legacy.

Definition preview (c : string) : string := String.substring 0 8 c ++ "...".

Definition clearScreen (w : World) : M unit :=
  when (isTTY w)
    (call (StdoutWrite (JS.utf8 [27] ++ "[2J" ++ JS.utf8 [27] ++ "[H"))).

Definition logStartup (platformName : string) (c : JS.value) : M unit :=
  p <- get ;;
  call (PrintStartup Console platformName (preview (JS.toString c))
          (farmCheckInterval (config p)) (friendCheckInterval (config p))).

Definition onLoginSuccess : M unit :=
  (* if (options.useSavedCode) { } *)
  call ProcessInviteCodes ;;
  call StartFarmCheckLoop ;;
  p <- get ;;
  when (farmCheckInterval (config p) >? 0) (call StartFriendCheckLoop) ;;
  call InitTaskSystem ;;
  call (SetTimeout DebugSellFruits 5000) ;;
  call (StartSellLoop 60000).

Definition onLoginError (w : World) (err : string) : M unit :=
  modify (fun p => setLoginAttemptCount (loginAttemptCount p + 1) p) ;;
  Log.consoleLog ("[登录] 失败: " ++ err) ;;
  p <- get ;;
  if useSavedCode (options p) && (loginAttemptCount p =? 1) then
    Log.consoleLog "[Code管理] 旧code已失效，正在删除..." ;;
    CodeManager.deleteCode ;;
    call (Sleep 1000) ;;
    if String.eqb (platform (config p)) "qq" then
      Log.consoleLog "[扫码登录] 正在重新获取二维码..." ;;
      tryCatch
        (c <- Client.getQQFarmCodeByScan w ;;
         modify (fun q =>
           setOptions (mkOptions (JS.VStr c) (qrLogin (options q))
                         (useSavedCode (options q))) q) ;;
         Log.consoleLog ("[扫码登录] 获取成功，code=" ++ preview c) ;;
         CodeManager.saveCode c ;;
         modify (fun q =>
           setOptions (mkOptions (code (options q)) (qrLogin (options q))
                         false) q) ;;
         clearScreen w ;;
         logStartup "QQ" (JS.VStr c) ;;
         connect (JS.VStr c))
        (fun scanErr =>
           Log.consoleError "[扫码登录] 失败:" scanErr ;;
           processExit 1)
    else ret tt
  else
    Log.consoleLog "[登录] 无法恢复，退出程序" ;;
    processExit 1.

Definition onSigint : M unit :=
  call CleanupStatusBar ;;
  Log.consoleLog (JS.utf8 [10] ++ "[退出] 正在断开...") ;;
  call StopFarmCheckLoop ;;
  call StopFriendCheckLoop ;;
  call CleanupTaskSystem ;;
  call StopSellLoop ;;
  call Cleanup ;;
  p <- get ;;
  when (socket p) (call WsClose) ;;
  processExit 0.

(** No ['disconnected'] listener is ever registered in this copy. *)
Definition handlers (w : World) : Handlers :=
  mkHandlers onLoginSuccess (onLoginError w) (fun _ => ret tt) onSigint.

Definition main (w : World) : M unit :=
  let args := argv w in
  call LoadProto ;;
  if JS.includes args "--verify" then call VerifyMode
  else if JS.includes args "--decode" then call (DecodeMode args)
  else
    let argsMap := Client.getArgsMap args in
    options <- Client.parseArgs w argsMap ;;
    p <- get ;;
    options <-
      (if negb (JS.truthy (code options))
          && String.eqb (platform (config p)) "qq"
       then
         savedCode <- CodeManager.loadCode ;;
         match savedCode with
         | Some saved =>
             Log.consoleLog
               "[Code管理] 检测到已保存的code，将优先尝试使用旧code登录" ;;
             ret (mkOptions (JS.VStr saved) (qrLogin options) true)
         | None => ret options
         end
       else ret options) ;;
    r <-
      (if negb (JS.truthy (code options))
          && String.eqb (platform (config p)) "qq"
          && (qrLogin options || negb (JS.includes args "--code"))
       then
         Log.consoleLog "[扫码登录] 正在获取二维码..." ;;
         c <- Client.getQQFarmCodeByScan w ;;
         Log.consoleLog ("[扫码登录] 获取成功，code=" ++ preview c) ;;
         CodeManager.saveCode c ;;
         ret (mkOptions (JS.VStr c) (qrLogin options) (useSavedCode options),
              true)
       else ret (options, false)) ;;
    let '(options, usedQrLogin) := r in
    modify (setOptions options) ;;
    (if negb (JS.truthy (code options)) then
       when (String.eqb (platform (config p)) "wx")
         (Log.consoleLog "[参数] 微信模式仍需通过 --code 传入登录凭证") ;;
       call ShowHelp ;;
       processExit 1
     else ret tt) ;;
    when usedQrLogin (clearScreen w) ;;
    call InitStatusBar ;;
    call (SetStatusPlatform (platform (config p))) ;;
    call (EmitRuntimeHint true) ;;
    logStartup
      (if String.eqb (platform (config p)) "wx" then "微信" else "QQ")
      (code options) ;;
    connect (code options) ;;
    modify (setOnSigint true).

Definition program (w : World) : M unit :=
  tryCatch (main w)
    (fun err =>
       Log.consoleError "启动失败:" err ;;
       processExit 1).

Definition boot (w : World) (p : Process) : Process :=
  exec (program w) p.

Definition run (w : World) (events : list Event) (p : Process) : Process :=
  deliver (handlers w) events (boot w p).

End Legacy.

(** ** Vocabulary of the properties *)

(** An interval is either left as it was or set to a whole number of
    seconds other than zero, raised to 1 and turned into milliseconds. *)
Definition floored (before after : Z) : Prop :=
  after = before
  \/ exists seconds, seconds <> 0 /\ after = Z.max seconds 1 * 1000.

(** The interval a run supplies: the value of the flag [cli] when the
    argument map has it, the environment variable [name] otherwise, both
    read by [parseInt]; [None] is NaN. *)
Definition supplied (w : World) (cli name : string) (m : Client.ArgsMap)
  : option Z :=
  match Client.mapGet cli m with
  | Some v => JS.parseInt (JS.toString v)
  | None => JS.orZero (JS.parseInt (JS.toStringOpt (env w name)))
  end.

(** The interval stored for a supplied number of seconds: nothing is applied
    for NaN and for zero; any other number is raised to 1 if it is below and
    multiplied by 1000. *)
Definition applied (seconds : option Z) (before : Z) : Z :=
  match seconds with
  | Some s => if s =? 0 then before else Z.max s 1 * 1000
  | None => before
  end.

(** The calls recorded between two states of the process. *)
Definition added (before after : Process) : list Call :=
  skipn (length (calls before)) (calls after).

(** The calls that start one of the four automation loops. *)
Definition isLoopStart (c : Call) : bool :=
  match c with
  | StartFarmCheckLoop | StartFriendCheckLoop | InitTaskSystem
  | StartSellLoop _ => true
  | _ => false
  end.

(** The calls that schedule a warehouse sale. *)
Definition isWarehouseCall (c : Call) : bool :=
  match c with
  | SetTimeout _ _ | StartSellLoop _ => true
  | _ => false
  end.

Definition isConnect (c : Call) : bool :=
  match c with
  | Connect _ => true
  | _ => false
  end.

Definition withFriendInterval (ms : Z) (p : Process) : Process :=
  setConfig (mkCONFIG (platform (config p)) (farmCheckInterval (config p)) ms)
    p.

(** The calls of a login-success callback, in order, as a function of the
    own-farm interval. *)
Definition loopsStarted (farmMs : Z) : list Call :=
  ([ProcessInviteCodes; StartFarmCheckLoop]
     ++ (if farmMs >? 0 then [StartFriendCheckLoop] else [])
     ++ [InitTaskSystem; SetTimeout DebugSellFruits 5000;
         StartSellLoop 60000])%list.

(** The calls of the close path, in order: status bar, the four loops, the
    session, the socket if there is one. *)
Definition closePath (ws : bool) : list Call :=
  ([CleanupStatusBar; StopFarmCheckLoop; StopFriendCheckLoop;
    CleanupTaskSystem; StopSellLoop; Cleanup;
    Print Logger Info "[退出] 正在断开..."]
     ++ (if ws then [WsClose] else []))%list.

(** The line the ['disconnected'] listener logs. *)
Definition disconnectedLine (c : Z) : Call :=
  Print Logger Info ("[退出] 连接已断开 (code=" ++ JS.numberToString c ++ ")").

Definition isDisconnectedLine (c : Call) : bool :=
  match c with
  | Print Logger Info text => JS.startsWith text "[退出] 连接已断开"
  | _ => false
  end.

(** The line [onLoginError] of client.js logs first. *)
Definition loginFailedLine (reason : string) : Call :=
  Print Logger Warn ("[登录] ⚠ 失败: " ++ reason).


Definition isScan (c : Call) : bool :=
  match c with
  | GetQQFarmCodeByScan => true
  | _ => false
  end.

(** The code the environment supplies: [CODE] when it is set and not
    empty, the empty string otherwise. *)
Definition codeFromEnv (w : World) : JS.value :=
  JS.VStr (if JS.truthyOpt (env w "CODE")
           then JS.toStringOpt (env w "CODE") else "").

(** [q] has recorded the calls of [p] and then calls that all fail the
    test [bad]. *)
Definition extends (bad : Call -> bool) (p q : Process) : Prop :=
  exists l, calls q = (calls p ++ l)%list /\ existsb bad l = false.

(** The process has exited, or no login answer is awaited. *)
Definition settled (q : Process) : Prop :=
  exited q <> None \/ loginPending q = false.

(** A process that has not started: nothing called, nothing registered. *)
Definition fresh (c : CONFIG) (d : FS) : Process :=
  mkProcess c d [] None (mkOptions (JS.VStr "") false false) 0 0%nat
    false false false false.

Definition noFaults (content : option string) : FS :=
  mkFS content None None None.

(** A disk that refuses every write, and one whose file cannot be read. *)
Definition readOnly : FS :=
  mkFS None (Some "EROFS: read-only file system") None None.

Definition unreadable : FS :=
  mkFS (Some "abc123") None (Some "EACCES: permission denied") None.

Definition defaults : CONFIG := mkCONFIG "qq" 10000 1000.

Definition noEnv : string -> option string := fun _ => None.

Definition scanGives (c : string) : nat -> ScanResult := fun _ => Scanned c.

(** [node client.js --code abc123 --interval 15] on a terminal, and the
    process once [main] has run. *)
Definition sampleWorld : World :=
  mkWorld ["--code"; "abc123"; "--interval"; "15"] noEnv true (scanGives "").

Definition connected : Process :=
  Client.boot sampleWorld (fresh defaults (noFaults None)).


(** [node client.js] with a saved code on the disk. *)
Definition savedWorld : World := mkWorld [] noEnv true (scanGives "fresh01").

Definition connectedSaved : Process :=
  Client.boot savedWorld (fresh defaults (noFaults (Some "old123"))).

(** The same start with the second copy of the entry point. *)
Definition legacySaved : Process :=
  Legacy.boot savedWorld (fresh defaults (noFaults (Some "old123"))).

(** ** src/logger.js: the name of the daily log file *)

Module LogFile.

(** The repetition of [pad] cut to [n] characters; [cur] is what is left
    of the copy being written. *)
Fixpoint fill (n : nat) (pad cur : string) : string :=
  match n with
  | O => ""
  | S n' =>
      match cur with
      | String c r => String c (fill n' pad r)
      | EmptyString =>
          match pad with
          | String c r => String c (fill n' pad r)
          | EmptyString => ""
          end
      end
  end.

(** String.prototype.padStart *)
Definition padStart (s : string) (targetLength : nat) (pad : string)
  : string :=
  if (targetLength <=? String.length s)%nat then s
  else fill (targetLength - String.length s) pad pad ++ s.

Definition pad2 (n : Z) : string :=
  padStart (JS.numberToString n) 2 "0".

(** What [getDateKey] reads of a [Date]: [getFullYear()], [getMonth()]
    (from 0) and [getDate()] (from 1), in local time. *)
Record Date : Type := mkDate {
  getFullYear : Z;
  getMonth : Z;
  getDate : Z
}.

Definition getDateKey (d : Date) : string :=
  JS.numberToString (getFullYear d) ++ "-" ++ pad2 (getMonth d + 1)
    ++ "-" ++ pad2 (getDate d).

(** A date of the calendar with a year of four digits. *)
Definition plausible (d : Date) : Prop :=
  1000 <= getFullYear d <= 9999
  /\ 0 <= getMonth d <= 11
  /\ 1 <= getDate d <= 31.

End LogFile.

(** ** Vocabulary of the further properties *)

(** An entry as [getArgsMap] writes it: a bare word with [true], or a flag
    with the element that follows it, which is not a flag. *)
Definition entryOk (key : string) (v : JS.value) : Prop :=
  match v with
  | JS.VTrue => JS.startsWith key "--" = false
  | JS.VStr s =>
      JS.startsWith key "--" = true /\ JS.startsWith s "--" = false
  end.

(** A command line made of flags, each followed by its value. *)
Definition commandLine (pairs : list (string * string)) : list string :=
  flat_map (fun kv => [fst kv; snd kv]) pairs.

Definition regular (pairs : list (string * string)) : Prop :=
  Forall (fun kv => JS.startsWith (fst kv) "--" = true
                    /\ JS.startsWith (snd kv) "--" = false) pairs.

(** The value of the last pair with key [key]. *)
Fixpoint lookupLast (key : string) (pairs : list (string * string))
  : option string :=
  match pairs with
  | [] => None
  | (k, v) :: rest =>
      match lookupLast key rest with
      | Some x => Some x
      | None => if String.eqb k key then Some v else None
      end
  end.

(** The platform after the keys of the map have been read in order. *)
Definition platformAfter (keys : list string) (initial : string) : string :=
  fold_left
    (fun pf k =>
       if String.eqb k "--wx" then "wx"
       else if String.eqb k "--qq" then "qq" else pf)
    keys initial.

(** The platform the environment selects. *)
Definition platformFromEnv (w : World) (initial : string) : string :=
  if JS.truthyOpt (env w "PLATFORM")
     && JS.includes ["qq"; "wx"] (JS.toStringOpt (env w "PLATFORM"))
  then JS.toStringOpt (env w "PLATFORM") else initial.

Definition isFsWrite (c : Call) : bool :=
  match c with
  | FsWriteFileSync _ => true
  | _ => false
  end.


(** What goes to the logger, the console or the terminal. *)
Definition isOutput (c : Call) : bool :=
  match c with
  | Print _ _ _ | PrintStartup _ _ _ _ _ => true
  | _ => false
  end.

Definition isFarmStart (c : Call) : bool :=
  match c with
  | StartFarmCheckLoop => true
  | _ => false
  end.

(** The options the environment alone yields. *)
Definition optionsFromEnv (w : World) : Options :=
  mkOptions (codeFromEnv w)
    (match env w "QR_LOGIN" with
     | Some s => String.eqb s "true"
     | None => false
     end)
    false.


Definition isFsUnlink (c : Call) : bool :=
  match c with
  | FsUnlinkSync => true
  | _ => false
  end.

(** [QR_LOGIN=true node client.js --qr yes] *)
Definition qrWorld : World :=
  mkWorld ["--qr"; "yes"]
    (fun k => if String.eqb k "QR_LOGIN" then Some "true" else None)
    false (scanGives "").

(** A world in which the QR scan is refused. *)
Definition scanRefused : World :=
  mkWorld [] noEnv true (fun _ => ScanFailed "timeout").

(** The integers from [lo] to [hi]. *)
Definition range (lo hi : Z) : list Z :=
  map (fun i => lo + Z.of_nat i) (seq 0 (Z.to_nat (hi - lo + 1))).

(** [s] has [width] characters and [parseInt] reads [n] from it. *)
Definition readsBack (width : nat) (s : string) (n : Z) : bool :=
  (String.length s =? width)%nat
  && match JS.parseInt s with
     | Some m => m =? n
     | None => false
     end.


(** The calls that are not output. *)
Definition silent (c : Call) : bool := negb (isOutput c).

(** How many times [connect] is called in a list of calls. *)
Definition connects (l : list Call) : nat := length (filter isConnect l).

(** [node client.js --verify --code abc], [node client.js --decode 0a02]
    and [PLATFORM=wx node client.js]. *)
Definition verifyWorld : World :=
  mkWorld ["--verify"; "--code"; "abc"] noEnv true (scanGives "").

Definition decodeWorld : World :=
  mkWorld ["--decode"; "0a02"] noEnv true (scanGives "").



(** The reconnections the second copy has left: one while the code in use
    is the saved one. *)
Definition retries (q : Process) : nat :=
  if useSavedCode (options q) then 1%nat else 0%nat.

Definition isStdoutWrite (c : Call) : bool :=
  match c with
  | StdoutWrite _ => true
  | _ => false
  end.

(** The calls [main] ends with when it connects with the code [c]: the
    status bar, the startup line and [connect]. *)
Definition startupSequence (cfg : CONFIG) (c : JS.value) : list Call :=
  [InitStatusBar;
   SetStatusPlatform (platform cfg);
   EmitRuntimeHint true;
   PrintStartup Logger
     (if String.eqb (platform cfg) "wx" then "微信" else "QQ")
     (Client.codePreview c)
     (farmCheckInterval cfg) (friendCheckInterval cfg);
   Connect c].

Definition isDisconnectedEvent (e : Event) : bool :=
  match e with
  | Disconnected _ => true
  | _ => false
  end.



(** * Properties *)

(** ** Strings *)

Section StringFacts.

Lemma reverse_involutive (s : string) : JS.reverse (JS.reverse s) = s.
Proof.
  unfold JS.reverse.
  rewrite list_ascii_of_string_of_list_ascii, rev_involutive.
  apply string_of_list_ascii_of_string.
Qed.

Lemma trimStartLoop_fixed (n : nat) (s : string) :
  JS.stripWhiteSpace s = None -> JS.trimStartLoop n s = s.
Proof. intros H. destruct n; simpl; rewrite H; reflexivity. Qed.

Lemma trimEndLoop_fixed (n : nat) (r : string) :
  JS.stripWhiteSpaceEnd r = None -> JS.trimEndLoop n r = r.
Proof. intros H. destruct n; simpl; rewrite H; reflexivity. Qed.

(** A text that neither starts nor ends with white space is its own trim. *)
Lemma trim_clean (s : string) :
  JS.leadingWhiteSpace s = false ->
  JS.trailingWhiteSpace s = false ->
  JS.trim s = s.
Proof.
  unfold JS.leadingWhiteSpace, JS.trailingWhiteSpace, JS.trim, JS.trimStart,
    JS.trimEnd.
  intros Hl Ht.
  destruct (JS.stripWhiteSpace s) eqn:El; [discriminate|].
  rewrite (trimStartLoop_fixed (String.length s) s El).
  destruct (JS.stripWhiteSpaceEnd (JS.reverse s)) eqn:Et; [discriminate|].
  rewrite (trimEndLoop_fixed (String.length s) (JS.reverse s) Et).
  apply reverse_involutive.
Qed.

(** The encodings of the white-space characters are prefix-free, so the
    first character stripped from [t ++ s] is [t]. *)
Lemma stripWhiteSpace_app (t s : string) :
  In t JS.whiteSpace -> JS.stripWhiteSpace (t ++ s) = Some s.
Proof.
  intros H. unfold JS.whiteSpace in H.
  repeat (destruct H as [<- | H]; [vm_compute; reflexivity|]).
  destruct H.
Qed.

Lemma whiteSpace_nonempty (t : string) :
  In t JS.whiteSpace -> (1 <= String.length t)%nat.
Proof.
  intros H. unfold JS.whiteSpace in H.
  repeat (destruct H as [<- | H]; [simpl; lia|]).
  destruct H.
Qed.

Lemma length_append (a b : string) :
  String.length (a ++ b) = (String.length a + String.length b)%nat.
Proof. induction a; simpl; congruence. Qed.

Lemma trimStartLoop_whiteSpaceOnly (n : nat) :
  forall s, JS.WhiteSpaceOnly s -> (String.length s <= n)%nat ->
            JS.trimStartLoop n s = "".
Proof.
  induction n as [|n IH]; intros s Hs Hn.
  - destruct Hs as [|t s Ht Hs]; [reflexivity|].
    pose proof (whiteSpace_nonempty _ Ht).
    rewrite length_append in Hn. lia.
  - destruct Hs as [|t s Ht Hs]; [reflexivity|].
    change (JS.trimStartLoop (S n) (t ++ s))
      with (match JS.stripWhiteSpace (t ++ s) with
            | None => t ++ s
            | Some rest => JS.trimStartLoop n rest
            end).
    rewrite (stripWhiteSpace_app t s Ht).
    apply IH; [assumption|].
    pose proof (whiteSpace_nonempty _ Ht).
    rewrite length_append in Hn. lia.
Qed.

Lemma trim_whiteSpaceOnly (s : string) :
  JS.WhiteSpaceOnly s -> JS.trim s = "".
Proof.
  intros H. unfold JS.trim, JS.trimStart.
  rewrite (trimStartLoop_whiteSpaceOnly (String.length s) s H (le_n _)).
  reflexivity.
Qed.

End StringFacts.

Example parseInt_15 : JS.parseInt "15" = Some 15.
Proof. reflexivity. Qed.
Example parseInt_neg : JS.parseInt "  -7px" = Some (-7).
Proof. reflexivity. Qed.
Example parseInt_hex : JS.parseInt "0x1F" = Some 31.
Proof. reflexivity. Qed.
Example parseInt_nan : JS.parseInt "abc" = None.
Proof. reflexivity. Qed.
Example parseInt_undefined : JS.parseInt (JS.toStringOpt None) = None.
Proof. reflexivity. Qed.
Example trim_both : JS.trim (JS.utf8 [32; 9; 97; 32; 98; 10; 194; 160]) = "a b".
Proof. reflexivity. Qed.

(** ** The credential store *)

Section CodeManagerFacts.

#[local] Arguments JS.trim : simpl never.

Lemma saveCode_returns (c : string) (p : Process) :
  fst (CodeManager.saveCode c p) = Ret tt.
Proof.
  destruct p as [cfg [f wf rf uf] cl ex op n sc lp so od os].
  destruct wf; reflexivity.
Qed.

Lemma deleteCode_returns (p : Process) :
  fst (CodeManager.deleteCode p) = Ret tt.
Proof.
  destruct p as [cfg [f wf rf uf] cl ex op n sc lp so od os].
  destruct f, uf; reflexivity.
Qed.

Lemma loadCode_returns (p : Process) :
  exists v, fst (CodeManager.loadCode p) = Ret v.
Proof.
  destruct p as [cfg [f wf rf uf] cl ex op n sc lp so od os].
  destruct f as [content|], rf; simpl; eauto.
Qed.

Lemma loadCode_read_error (p : Process) (e : string) :
  readFault (disk p) = Some e -> fst (CodeManager.loadCode p) = Ret None.
Proof.
  destruct p as [cfg [f wf rf uf] cl ex op n sc lp so od os]. simpl.
  intros ->. destruct f; reflexivity.
Qed.

Lemma loadCode_absent (p : Process) :
  file (disk p) = None -> fst (CodeManager.loadCode p) = Ret None.
Proof.
  destruct p as [cfg [f wf rf uf] cl ex op n sc lp so od os]. simpl.
  intros ->. reflexivity.
Qed.

Lemma loadCode_present (p : Process) (content : string) :
  file (disk p) = Some content -> readFault (disk p) = None ->
  fst (CodeManager.loadCode p) =
  Ret (if String.eqb (JS.trim content) "" then None
       else Some (JS.trim content)).
Proof.
  destruct p as [cfg [f wf rf uf] cl ex op n sc lp so od os]. simpl.
  intros -> ->. reflexivity.
Qed.

Lemma loadCode_blank (p : Process) (content : string) :
  file (disk p) = Some content -> JS.WhiteSpaceOnly content ->
  fst (CodeManager.loadCode p) = Ret None.
Proof.
  intros Hf Hw.
  destruct (readFault (disk p)) as [e|] eqn:Hr.
  - exact (loadCode_read_error p e Hr).
  - rewrite (loadCode_present p content Hf Hr).
    rewrite (trim_whiteSpaceOnly content Hw). reflexivity.
Qed.

Lemma saveCode_disk (c : string) (p : Process) :
  writeFault (disk p) = None ->
  disk (exec (CodeManager.saveCode c) p) =
  mkFS (Some c) None (readFault (disk p)) (unlinkFault (disk p)).
Proof.
  destruct p as [cfg [f wf rf uf] cl ex op n sc lp so od os]. simpl.
  intros ->. reflexivity.
Qed.

Lemma deleteCode_absent (p : Process) :
  file (disk p) = None -> disk (exec CodeManager.deleteCode p) = disk p.
Proof.
  destruct p as [cfg [f wf rf uf] cl ex op n sc lp so od os]. simpl.
  intros ->. reflexivity.
Qed.

Lemma deleteCode_twice (p : Process) :
  disk (exec CodeManager.deleteCode (exec CodeManager.deleteCode p)) =
  disk (exec CodeManager.deleteCode p).
Proof.
  destruct p as [cfg [f wf rf uf] cl ex op n sc lp so od os].
  destruct f, uf; reflexivity.
Qed.

End CodeManagerFacts.

(** C8, as amended.  When the file system performs the write and the read,
    [loadCode()] after [saveCode(code)] returns exactly [code], for every
    non-empty [code] without leading or trailing white space; and
    [loadCode()] returns null when the credential file is absent or holds
    nothing but white space (the empty text included). *)
Theorem loadCode_saveCode_round_trip :
  (forall (p : Process) (c : string),
      c <> "" ->
      JS.leadingWhiteSpace c = false ->
      JS.trailingWhiteSpace c = false ->
      writeFault (disk p) = None ->
      readFault (disk p) = None ->
      fst (CodeManager.loadCode (exec (CodeManager.saveCode c) p))
      = Ret (Some c))
  /\ (forall q, file (disk q) = None ->
                fst (CodeManager.loadCode q) = Ret None)
  /\ (forall q content,
         file (disk q) = Some content -> JS.WhiteSpaceOnly content ->
         fst (CodeManager.loadCode q) = Ret None).
Proof.
  split; [|split].
  - intros p c Hne Hl Ht Hw Hr.
    pose proof (saveCode_disk c p Hw) as Hd.
    rewrite (loadCode_present _ c).
    + rewrite (trim_clean c Hl Ht).
      destruct (String.eqb_spec c ""); [contradiction|reflexivity].
    + rewrite Hd. reflexivity.
    + rewrite Hd. exact Hr.
  - exact loadCode_absent.
  - exact loadCode_blank.
Qed.

Lemma loadCode_saveCode_round_trip_witness :
  fst (CodeManager.loadCode
         (exec (CodeManager.saveCode "abc123")
            (fresh defaults (noFaults (Some "stale")))))
  = Ret (Some "abc123")
  /\ fst (CodeManager.loadCode (fresh defaults (noFaults None))) = Ret None
  /\ fst (CodeManager.loadCode (fresh defaults (noFaults (Some " "))))
     = Ret None.
Proof.
  destruct loadCode_saveCode_round_trip as (A & B & C).
  split; [|split].
  - apply A; try reflexivity. discriminate.
  - apply B. reflexivity.
  - apply (C _ " "); [reflexivity|].
    apply (JS.wso_more " " ""); [|constructor].
    repeat first [left; reflexivity | right].
Defined.

(** C8 as it is written fails: on a disk that refuses the write, [saveCode]
    swallows the error and the following [loadCode] returns null. *)
Lemma loadCode_saveCode_lost_on_write_error :
  "abc123" <> ""
  /\ JS.leadingWhiteSpace "abc123" = false
  /\ JS.trailingWhiteSpace "abc123" = false
  /\ fst (CodeManager.loadCode
            (exec (CodeManager.saveCode "abc123") (fresh defaults readOnly)))
     = Ret None
  /\ fst (CodeManager.loadCode
            (exec (CodeManager.saveCode "abc123") (fresh defaults readOnly)))
     <> Ret (Some "abc123").
Proof.
  repeat split; try reflexivity; discriminate.
Qed.

(** C10.  [saveCode], [loadCode] and [deleteCode] always return normally,
    whatever the file system answers; a read error makes [loadCode] return
    null; [deleteCode] on an absent file leaves the disk as it is, and so
    does a second [deleteCode] in a row. *)
Theorem codeManager_never_throws :
  (forall c p, fst (CodeManager.saveCode c p) = Ret tt)
  /\ (forall p, exists v, fst (CodeManager.loadCode p) = Ret v)
  /\ (forall p, fst (CodeManager.deleteCode p) = Ret tt)
  /\ (forall p e, readFault (disk p) = Some e ->
                  fst (CodeManager.loadCode p) = Ret None)
  /\ (forall p, file (disk p) = None ->
                disk (exec CodeManager.deleteCode p) = disk p)
  /\ (forall p,
         disk (exec CodeManager.deleteCode (exec CodeManager.deleteCode p))
         = disk (exec CodeManager.deleteCode p)).
Proof.
  repeat split.
  - exact saveCode_returns.
  - exact loadCode_returns.
  - exact deleteCode_returns.
  - exact loadCode_read_error.
  - exact deleteCode_absent.
  - exact deleteCode_twice.
Qed.

Lemma codeManager_never_throws_witness :
  fst (CodeManager.loadCode (fresh defaults unreadable)) = Ret None
  /\ disk (exec CodeManager.deleteCode (fresh defaults (noFaults None)))
     = noFaults None.
Proof.
  destruct codeManager_never_throws as (_ & _ & _ & R & D & _).
  split.
  - apply (R _ "EACCES: permission denied"). reflexivity.
  - apply (D (fresh defaults (noFaults None))). reflexivity.
Defined.

(** ** The argument map *)

Section ArgsMapFacts.

Lemma getArgsMapLoop_trailing_flag (k : string) :
  JS.startsWith k "--" = true ->
  forall args map,
    Client.getArgsMapLoop (args ++ [k]) map = Client.getArgsMapLoop args map.
Proof.
  intros Hk args.
  (* the loop advances by one or by two elements *)
  enough (H : (forall map, Client.getArgsMapLoop (args ++ [k]) map
                           = Client.getArgsMapLoop args map)
              /\ (forall x map,
                     Client.getArgsMapLoop ((x :: args) ++ [k]) map
                     = Client.getArgsMapLoop (x :: args) map))
    by exact (proj1 H).
  induction args as [|a args [IH0 IH1]].
  - split.
    + intros map. simpl. rewrite Hk. reflexivity.
    + intros x map. simpl.
      destruct (JS.startsWith x "--"); simpl; rewrite Hk; reflexivity.
  - split.
    + exact (IH1 a).
    + intros x map.
      change ((x :: a :: args) ++ [k])%list with (x :: a :: (args ++ [k]))%list.
      simpl.
      destruct (JS.startsWith x "--"); simpl.
      * destruct (JS.startsWith a "--"); apply IH0.
      * apply (IH1 a).
Qed.

Lemma getArgsMapLoop_consumed (pre : list string) :
  Client.Consumed pre ->
  forall rest map,
    Client.getArgsMapLoop (pre ++ rest) map
    = Client.getArgsMapLoop rest (Client.getArgsMapLoop pre map).
Proof.
  induction 1 as [|key pre Hkey _ IH|key value pre Hkey _ IH];
    intros rest map.
  - reflexivity.
  - simpl. rewrite Hkey. simpl. apply IH.
  - simpl. rewrite Hkey. simpl.
    destruct (JS.startsWith value "--"); apply IH.
Qed.

End ArgsMapFacts.

(** C9, as amended.  A flag (an argument that starts with two dashes) that
    is the last element never reaches the map: the map is the one of the
    list without it.  A flag that the loop reads as a key and that is
    immediately followed by another flag is not recorded, and that second
    flag is skipped without being read as a key: the map is the one of the
    list without the two. *)
Theorem getArgsMap_lost_flags :
  (forall args k,
      JS.startsWith k "--" = true ->
      Client.getArgsMap (args ++ [k]) = Client.getArgsMap args)
  /\ (forall pre k1 k2 rest,
         Client.Consumed pre ->
         JS.startsWith k1 "--" = true ->
         JS.startsWith k2 "--" = true ->
         Client.getArgsMap (pre ++ k1 :: k2 :: rest)
         = Client.getArgsMap (pre ++ rest)).
Proof.
  split.
  - intros args k Hk. apply (getArgsMapLoop_trailing_flag k Hk).
  - intros pre k1 k2 rest Hpre H1 H2. unfold Client.getArgsMap.
    rewrite !(getArgsMapLoop_consumed pre Hpre).
    simpl. rewrite H1, H2. reflexivity.
Qed.

Lemma getArgsMap_lost_flags_witness :
  Client.getArgsMap (["--code"; "abc"] ++ ["--wx"])
  = Client.getArgsMap ["--code"; "abc"]
  /\ Client.getArgsMap (["verbose"; "--interval"; "5"]
                          ++ "--wx" :: "--code" :: ["abc"])
     = Client.getArgsMap (["verbose"; "--interval"; "5"] ++ ["abc"]).
Proof.
  destruct getArgsMap_lost_flags as (A & B).
  split.
  - apply A. reflexivity.
  - apply B; [|reflexivity|reflexivity].
    apply Client.consumed_word; [reflexivity|].
    apply Client.consumed_pair; [reflexivity|].
    apply Client.consumed_nil.
Defined.

(** C9 as it is written fails where the first of two adjacent flags is not
    read as a key: after [--qr] has taken [--wx] for its value slot, [--code]
    is read as a key and recorded, though it follows the flag [--wx]
    immediately. *)
Lemma getArgsMap_flag_after_flag_recorded :
  JS.startsWith "--wx" "--" = true
  /\ JS.startsWith "--code" "--" = true
  /\ Client.getArgsMap (["--qr"] ++ "--wx" :: "--code" :: ["abc"])
     = [("--code", JS.VStr "abc")]
  /\ Client.getArgsMap (["--qr"] ++ "--wx" :: "--code" :: ["abc"])
     <> Client.getArgsMap (["--qr"] ++ ["abc"]).
Proof.
  repeat split; try reflexivity. discriminate.
Qed.

(** ** Argument parsing *)

Section ParseArgsFacts.

(** [parseArgs] touches nothing but [CONFIG], and what it computes does not
    depend on the rest of the process. *)
Lemma parseArgsCase_pure (key : string) (value : JS.value) (l : Client.Locals) :
  exists l' g,
    (forall p, Client.parseArgsCase key value l p
               = (Ret l', setConfig (g (config p)) p))
    /\ (forall c, farmCheckInterval (g c) = farmCheckInterval c
                  /\ friendCheckInterval (g c) = friendCheckInterval c).
Proof.
  unfold Client.parseArgsCase.
  repeat match goal with
         | |- context [if String.eqb key ?s then _ else _] =>
             destruct (String.eqb key s)
         end;
    try (eexists; exists (fun c => c); split;
         [intros [? ? ? ? ? ? ? ? ? ? ?]; reflexivity | intros c; split; reflexivity]).
  - eexists; exists (fun c => mkCONFIG "wx" (farmCheckInterval c)
                                (friendCheckInterval c)).
    split; [intros p; reflexivity | intros c; split; reflexivity].
  - eexists; exists (fun c => mkCONFIG "qq" (farmCheckInterval c)
                                (friendCheckInterval c)).
    split; [intros p; reflexivity | intros c; split; reflexivity].
Qed.

Lemma parseArgsLoop_pure (entries : Client.ArgsMap) :
  forall l, exists l' g,
    (forall p, Client.parseArgsLoop entries l p
               = (Ret l', setConfig (g (config p)) p))
    /\ (forall c, farmCheckInterval (g c) = farmCheckInterval c
                  /\ friendCheckInterval (g c) = friendCheckInterval c).
Proof.
  induction entries as [|[key value] rest IH]; intros l.
  - exists l, (fun c => c). split.
    + intros [? ? ? ? ? ? ? ? ? ? ?]; reflexivity.
    + intros c; split; reflexivity.
  - destruct (parseArgsCase_pure key value l) as (l1 & g1 & H1 & G1).
    destruct (IH l1) as (l' & g & H & G).
    exists l', (fun c => g (g1 c)). split.
    + intros p. simpl. unfold bind. rewrite H1, H. reflexivity.
    + intros c. destruct (G (g1 c)) as [-> ->]. apply G1.
Qed.

Lemma parseArgs_pure (w : World) (argsMap : Client.ArgsMap) :
  exists o g,
    (forall p, Client.parseArgs w argsMap p
               = (Ret o, setConfig (g (config p)) p))
    /\ (forall c, floored (farmCheckInterval c) (farmCheckInterval (g c))
                  /\ floored (friendCheckInterval c)
                       (friendCheckInterval (g c))).
Proof.
  unfold Client.parseArgs.
  match goal with
  | |- context [Client.parseArgsLoop argsMap ?l] =>
      destruct (parseArgsLoop_pure argsMap l) as (l' & g & H & G)
  end.
  match goal with
  | |- context [when ?cond (Client.setPlatform ?name)] =>
      generalize cond; intros b; generalize name; intros s
  end.
  pose (g0 := fun c : CONFIG =>
                if b then mkCONFIG s (farmCheckInterval c)
                            (friendCheckInterval c)
                else c).
  pose (g1 := fun c : CONFIG =>
                match Client.l_interval l' with
                | Some interval =>
                    if JS.truthyNum (Some interval)
                    then mkCONFIG (platform c) (Z.max interval 1 * 1000)
                           (friendCheckInterval c)
                    else c
                | None => c
                end).
  pose (g2 := fun c : CONFIG =>
                match Client.l_friend_interval l' with
                | Some friend_interval =>
                    if JS.truthyNum (Some friend_interval)
                    then mkCONFIG (platform c) (farmCheckInterval c)
                           (Z.max friend_interval 1 * 1000)
                    else c
                | None => c
                end).
  exists (Client.l_options l'), (fun c => g2 (g1 (g (g0 c)))).
  split.
  - intros p. unfold bind at 1.
    assert (E0 : when b (Client.setPlatform s) p
                 = (Ret tt, setConfig (g0 (config p)) p)).
    { unfold g0. destruct p, b; reflexivity. }
    rewrite E0. unfold bind at 1. rewrite H.
    unfold g2, g1.
    destruct p as [cfg d cl ex op n sc lp so od os]. simpl config.
    generalize (g (g0 cfg)). intros c.
    destruct (Client.l_interval l') as [iv|],
      (Client.l_friend_interval l') as [fv|];
      simpl; try destruct (iv =? 0); try destruct (fv =? 0);
      destruct c; reflexivity.
  - intros c.
    assert (F0 : farmCheckInterval (g (g0 c)) = farmCheckInterval c
                 /\ friendCheckInterval (g (g0 c)) = friendCheckInterval c).
    { destruct (G (g0 c)) as [-> ->]. unfold g0. destruct b; split; reflexivity. }
    destruct F0 as [Ffarm Ffriend]. revert Ffarm Ffriend.
    generalize (g (g0 c)). intros c' Ffarm Ffriend.
    unfold g2, g1, floored.
    destruct (Client.l_interval l') as [iv|],
      (Client.l_friend_interval l') as [fv|]; simpl;
      try destruct (Z.eqb_spec iv 0); try destruct (Z.eqb_spec fv 0);
      simpl; split; eauto.
Qed.

End ParseArgsFacts.

(** ** Login succeeded *)

Section LoginSuccessFacts.

Lemma added_app (p q : Process) (l : list Call) :
  calls q = (calls p ++ l)%list -> added p q = l.
Proof.
  intros H. unfold added. rewrite H, skipn_app, Nat.sub_diag, skipn_all.
  reflexivity.
Qed.

Lemma onLoginSuccess_calls (p : Process) :
  Client.onLoginSuccess p
  = (Ret tt,
     setCalls (calls p ++ loopsStarted (farmCheckInterval (config p))) p).
Proof.
  destruct p as [[pf farm friend] d cl ex op n sc lp so od os].
  unfold loopsStarted. simpl farmCheckInterval.
  unfold Client.onLoginSuccess, bind, call, modify, get, when, ret.
  simpl. destruct (farm >? 0); simpl; rewrite <- !app_assoc; reflexivity.
Qed.

Lemma legacy_onLoginSuccess_calls (p : Process) :
  Legacy.onLoginSuccess p
  = (Ret tt,
     setCalls (calls p ++ loopsStarted (farmCheckInterval (config p))) p).
Proof.
  destruct p as [[pf farm friend] d cl ex op n sc lp so od os].
  unfold loopsStarted. simpl farmCheckInterval.
  unfold Legacy.onLoginSuccess, bind, call, modify, get, when, ret.
  simpl. destruct (farm >? 0); simpl; rewrite <- !app_assoc; reflexivity.
Qed.

Lemma dispatch_loginSucceeded (h : Handlers) (p : Process) :
  exited p = None -> loginPending p = true ->
  (forall q, loginSuccess h q
             = (Ret tt,
                setCalls (calls q
                            ++ loopsStarted (farmCheckInterval (config q)))
                  q)) ->
  added p (dispatch h LoginSucceeded p)
  = loopsStarted (farmCheckInterval (config p)).
Proof.
  intros He Hp Hh. apply added_app.
  unfold dispatch. rewrite He, Hp, Hh. reflexivity.
Qed.

End LoginSuccessFacts.

(** C6.  When the login succeeds, the callback schedules exactly one
    [debugSellFruits] by [setTimeout], 5000 ms ahead, and starts the sell
    loop with 60000 ms, and nothing else of the warehouse; this holds for
    every configuration of the two check intervals, and in both copies of
    the entry point.  The two delays are the constants of client.js. *)
Theorem warehouse_sale_schedule (p : Process) :
  exited p = None ->
  loginPending p = true ->
  filter isWarehouseCall
    (added p (dispatch Client.handlers LoginSucceeded p))
  = [SetTimeout DebugSellFruits Client.INITIAL_SELL_DELAY_MS;
     StartSellLoop Client.SELL_LOOP_INTERVAL_MS]
  /\ Client.INITIAL_SELL_DELAY_MS = 5000
  /\ Client.SELL_LOOP_INTERVAL_MS = 60000
  /\ (forall w,
         filter isWarehouseCall
           (added p (dispatch (Legacy.handlers w) LoginSucceeded p))
         = [SetTimeout DebugSellFruits 5000; StartSellLoop 60000]).
Proof.
  intros He Hp.
  rewrite (dispatch_loginSucceeded Client.handlers p He Hp
             onLoginSuccess_calls).
  repeat split.
  - unfold loopsStarted.
    destruct (farmCheckInterval (config p) >? 0); reflexivity.
  - intros w.
    rewrite (dispatch_loginSucceeded (Legacy.handlers w) p He Hp
               legacy_onLoginSuccess_calls).
    unfold loopsStarted.
    destruct (farmCheckInterval (config p) >? 0); reflexivity.
Qed.

Lemma warehouse_sale_schedule_witness :
  filter isWarehouseCall
    (added connected (dispatch Client.handlers LoginSucceeded connected))
  = [SetTimeout DebugSellFruits 5000; StartSellLoop 60000].
Proof.
  refine (proj1 (warehouse_sale_schedule connected _ _));
    vm_compute; reflexivity.
Defined.

(** ** Growing lists of calls *)

Section ExtendsFacts.

Lemma extends_refl (bad : Call -> bool) (p : Process) : extends bad p p.
Proof. exists []. split; [symmetry; apply app_nil_r | reflexivity]. Qed.

Lemma extends_trans (bad : Call -> bool) (p q r : Process) :
  extends bad p q -> extends bad q r -> extends bad p r.
Proof.
  intros (l1 & H1 & B1) (l2 & H2 & B2). exists (l1 ++ l2)%list. split.
  - rewrite H2, H1, app_assoc. reflexivity.
  - rewrite existsb_app, B1, B2. reflexivity.
Qed.

Lemma extends_added (bad : Call -> bool) (p q : Process) :
  extends bad p q -> existsb bad (added p q) = false.
Proof. intros (l & H & B). rewrite (added_app p q l H). exact B. Qed.

End ExtendsFacts.

(** ** The login code *)

Section CredentialFacts.

(** Every property of the map that [map.set] preserves holds of the result
    of the loop. *)
Lemma getArgsMapLoop_invariant (P : Client.ArgsMap -> Prop) :
  (forall k v m, P m -> P (Client.mapSet k v m)) ->
  forall args m, P m -> P (Client.getArgsMapLoop args m).
Proof.
  intros Hset args.
  enough (H : (forall m, P m -> P (Client.getArgsMapLoop args m))
              /\ (forall x m, P m -> P (Client.getArgsMapLoop (x :: args) m)))
    by exact (proj1 H).
  induction args as [|a args [IH0 IH1]].
  - split; [intros m Hm; exact Hm|].
    intros x m Hm. simpl.
    destruct (JS.startsWith x "--"); simpl; [exact Hm|].
    apply Hset, Hm.
  - split; [exact (IH1 a)|].
    intros x m Hm. simpl.
    destruct (JS.startsWith x "--"); simpl.
    + destruct (JS.startsWith a "--"); apply IH0; [exact Hm|].
      apply Hset, Hm.
    + apply (IH1 a), Hset, Hm.
Qed.

Lemma mapSet_keys (k : string) (v : JS.value) (m : Client.ArgsMap) (a : string) :
  In a (map fst (Client.mapSet k v m)) -> a = k \/ In a (map fst m).
Proof.
  induction m as [|[k0 x] rest IH]; simpl.
  - intros [H|[]]. left. symmetry. exact H.
  - destruct (String.eqb k0 k); simpl; [tauto|].
    intros [H|H]; [tauto|]. destruct (IH H); tauto.
Qed.

Lemma mapSet_NoDup (k : string) (v : JS.value) (m : Client.ArgsMap) :
  NoDup (map fst m) -> NoDup (map fst (Client.mapSet k v m)).
Proof.
  induction m as [|[k0 x] rest IH]; simpl; intros H.
  - constructor; [intros []|constructor].
  - destruct (String.eqb_spec k0 k) as [->|Hne]; simpl; [exact H|].
    inversion H as [|? ? Hnotin Hrest]; subst.
    constructor; [|apply IH, Hrest].
    intros Hin. destruct (mapSet_keys _ _ _ _ Hin); [congruence|contradiction].
Qed.

(** A [Map] holds a key once. *)
Lemma getArgsMap_NoDup (args : list string) :
  NoDup (map fst (Client.getArgsMap args)).
Proof.
  apply (getArgsMapLoop_invariant (fun m => NoDup (map fst m))).
  - intros k v m. apply mapSet_NoDup.
  - constructor.
Qed.

Lemma mapGet_absent (key : string) (m : Client.ArgsMap) :
  ~ In key (map fst m) -> Client.mapGet key m = None.
Proof.
  induction m as [|[k x] rest IH]; simpl; [reflexivity|].
  intros H. destruct (String.eqb_spec k key) as [->|Hne]; [tauto|].
  apply IH. tauto.
Qed.

(** What one entry of the map does to the three variables of the loop. *)
Lemma parseArgsCase_fields (key : string) (value : JS.value)
      (l l1 : Client.Locals) (p q : Process) :
  Client.parseArgsCase key value l p = (Ret l1, q) ->
  code (Client.l_options l1)
  = (if String.eqb key "--code" then value else code (Client.l_options l))
  /\ Client.l_interval l1
     = (if String.eqb key "--interval" then JS.parseInt (JS.toString value)
        else Client.l_interval l)
  /\ Client.l_friend_interval l1
     = (if String.eqb key "--friend-interval"
        then JS.parseInt (JS.toString value)
        else Client.l_friend_interval l).
Proof.
  unfold Client.parseArgsCase.
  repeat match goal with
         | |- context [if String.eqb key ?s then _ else _] =>
             destruct (String.eqb_spec key s) as [->|?]
         end;
    intros E; inversion E; repeat split.
Qed.

(** A variable that an entry with key [key] overwrites and the other
    entries leave alone ends up as the value of [key] in the map. *)
Lemma parseArgsLoop_field {A : Type} (field : Client.Locals -> A)
      (key : string) (upd : JS.value -> A) :
  (forall k v l p l1 q,
      Client.parseArgsCase k v l p = (Ret l1, q) ->
      field l1 = if String.eqb k key then upd v else field l) ->
  forall entries,
    NoDup (map fst entries) ->
    forall l p l' q,
      Client.parseArgsLoop entries l p = (Ret l', q) ->
      field l' = match Client.mapGet key entries with
                 | Some v => upd v
                 | None => field l
                 end.
Proof.
  intros Hcase.
  induction entries as [|[k value] rest IH]; intros Hnd l p l' q E.
  - inversion E. reflexivity.
  - simpl in Hnd. inversion Hnd as [|? ? Hnotin Hrest]; subst.
    simpl in E. unfold bind in E.
    destruct (Client.parseArgsCase k value l p) as [[l1| |] p1] eqn:E1;
      try discriminate E.
    rewrite (IH Hrest l1 p1 l' q E).
    rewrite (Hcase _ _ _ _ _ _ E1).
    simpl. destruct (String.eqb_spec k key) as [->|Hne].
    + rewrite (mapGet_absent _ _ Hnotin). reflexivity.
    + reflexivity.
Qed.

Lemma parseArgsLoop_fields (entries : Client.ArgsMap)
      (l l' : Client.Locals) (p q : Process) :
  NoDup (map fst entries) ->
  Client.parseArgsLoop entries l p = (Ret l', q) ->
  code (Client.l_options l')
  = match Client.mapGet "--code" entries with
    | Some v => v
    | None => code (Client.l_options l)
    end
  /\ Client.l_interval l'
     = match Client.mapGet "--interval" entries with
       | Some v => JS.parseInt (JS.toString v)
       | None => Client.l_interval l
       end
  /\ Client.l_friend_interval l'
     = match Client.mapGet "--friend-interval" entries with
       | Some v => JS.parseInt (JS.toString v)
       | None => Client.l_friend_interval l
       end.
Proof.
  intros Hnd E. split; [|split].
  - apply (parseArgsLoop_field (fun x => code (Client.l_options x))
             "--code" (fun v => v)) with (p := p) (q := q);
      [|assumption|assumption].
    intros k v l0 p0 l1 q0 H. apply (parseArgsCase_fields _ _ _ _ _ _ H).
  - apply (parseArgsLoop_field Client.l_interval "--interval"
             (fun v => JS.parseInt (JS.toString v))) with (p := p) (q := q);
      [|assumption|assumption].
    intros k v l0 p0 l1 q0 H. apply (parseArgsCase_fields _ _ _ _ _ _ H).
  - apply (parseArgsLoop_field Client.l_friend_interval "--friend-interval"
             (fun v => JS.parseInt (JS.toString v))) with (p := p) (q := q);
      [|assumption|assumption].
    intros k v l0 p0 l1 q0 H. apply (parseArgsCase_fields _ _ _ _ _ _ H).
Qed.

End CredentialFacts.

(** The code and the two intervals after [parseArgs], in terms of the map
    and the environment. *)
Lemma parseArgs_result (w : World) (argsMap : Client.ArgsMap)
      (p q : Process) (o : Options) :
  NoDup (map fst argsMap) ->
  Client.parseArgs w argsMap p = (Ret o, q) ->
  code o = match Client.mapGet "--code" argsMap with
           | Some v => v
           | None => codeFromEnv w
           end
  /\ farmCheckInterval (config q)
     = applied (supplied w "--interval" "INTERVAL" argsMap)
         (farmCheckInterval (config p))
  /\ friendCheckInterval (config q)
     = applied (supplied w "--friend-interval" "FRIEND_INTERVAL" argsMap)
         (friendCheckInterval (config p)).
Proof.
  intros Hnd. unfold Client.parseArgs, bind.
  match goal with
  | |- context [when ?cond ?m p] =>
      destruct (when cond m p) as [[[]| |] p0] eqn:E0
  end; try discriminate.
  assert (F0 : farmCheckInterval (config p0) = farmCheckInterval (config p)
               /\ friendCheckInterval (config p0)
                  = friendCheckInterval (config p)).
  { revert E0. unfold when.
    match goal with |- context [if ?c then _ else _] => destruct c end;
      intros E0; inversion E0; split; reflexivity. }
  destruct F0 as [Ffarm Ffriend].
  match goal with
  | |- context [Client.parseArgsLoop argsMap ?l p0] =>
      destruct (Client.parseArgsLoop argsMap l p0) as [[l'| |] p1] eqn:E;
      [destruct (parseArgsLoop_fields _ _ _ _ _ Hnd E) as (Hc & Hi & Hf);
       destruct (parseArgsLoop_pure argsMap l) as (l'' & g & H & G);
       rewrite H in E; inversion E; subst l'' p1; clear E
      | discriminate | discriminate]
  end.
  destruct (G (config p0)) as [Gfarm Gfriend].
  simpl in Hc, Hi, Hf.
  unfold supplied, applied. rewrite <- Hi, <- Hf, <- Ffarm, <- Ffriend.
  rewrite <- Gfarm, <- Gfriend.
  intros Hfin.
  assert (Ho : o = Client.l_options l'
               /\ farmCheckInterval (config q)
                  = applied (Client.l_interval l')
                      (farmCheckInterval (g (config p0)))
               /\ friendCheckInterval (config q)
                  = applied (Client.l_friend_interval l')
                      (friendCheckInterval (g (config p0)))).
  { revert Hfin. unfold applied.
    destruct (Client.l_interval l') as [iv|]; simpl;
      [destruct (iv =? 0); simpl|];
      (destruct (Client.l_friend_interval l') as [fv|]; simpl;
       [destruct (fv =? 0); simpl|]);
      intros Hfin; inversion Hfin; repeat split. }
  destruct Ho as (-> & Hq1 & Hq2).
  split; [|split; assumption].
  rewrite Hc. destruct (Client.mapGet "--code" argsMap); [reflexivity|].
  unfold codeFromEnv.
  destruct (env w "QR_LOGIN") as [s|];
    [destruct (String.eqb s "true")|];
    destruct (JS.truthyOpt (env w "CODE")); reflexivity.
Qed.

(** C4.  [parseArgs] always returns and leaves each of the two check
    intervals either untouched or set to a number of seconds other than
    zero, raised to 1 when it is below 1, times 1000.  For a map as
    [getArgsMap] builds it, the stored interval is the one supplied by
    the flag, or by the environment variable when the flag is absent:
    NaN and 0 are not applied, every other value [s] is stored as
    [max s 1 * 1000], which is at least 1000 milliseconds. *)
Theorem parseArgs_interval_floor :
  (forall (w : World) (argsMap : Client.ArgsMap) (p : Process),
      exists o q,
        Client.parseArgs w argsMap p = (Ret o, q)
        /\ floored (farmCheckInterval (config p))
             (farmCheckInterval (config q))
        /\ floored (friendCheckInterval (config p))
             (friendCheckInterval (config q)))
  /\ (forall (w : World) (args : list string) (p q : Process) (o : Options),
         Client.parseArgs w (Client.getArgsMap args) p = (Ret o, q) ->
         farmCheckInterval (config q)
         = applied (supplied w "--interval" "INTERVAL"
                      (Client.getArgsMap args))
             (farmCheckInterval (config p))
         /\ friendCheckInterval (config q)
            = applied (supplied w "--friend-interval" "FRIEND_INTERVAL"
                         (Client.getArgsMap args))
                (friendCheckInterval (config p)))
  /\ (forall (s before : Z),
         s <> 0 ->
         applied (Some s) before = Z.max s 1 * 1000
         /\ 1000 <= applied (Some s) before).
Proof.
  split; [|split].
  - intros w argsMap p.
    destruct (parseArgs_pure w argsMap) as (o & g & H & G).
    exists o, (setConfig (g (config p)) p).
    split; [apply H|]. apply (G (config p)).
  - intros w args p q o E.
    apply (parseArgs_result w _ p q o (getArgsMap_NoDup args) E).
  - intros s before Hs. unfold applied.
    destruct (Z.eqb_spec s 0); [contradiction|]. split; [reflexivity | lia].
Qed.

Lemma parseArgs_interval_floor_witness :
  farmCheckInterval (config connected) = 15000
  /\ applied (Some (-3)) 10000 = 1000.
Proof.
  destruct parseArgs_interval_floor as (_ & A & B).
  split.
  - assert (E : Client.parseArgs sampleWorld
                  (Client.getArgsMap ["--code"; "abc123"; "--interval"; "15"])
                  (fresh defaults (noFaults None))
                = (Ret (mkOptions (JS.VStr "abc123") false false),
                   setConfig (mkCONFIG "qq" 15000 1000)
                     (fresh defaults (noFaults None))))
      by (vm_compute; reflexivity).
    exact (proj1 (A _ _ _ _ _ E)).
  - apply (B (-3) 10000). discriminate.
Defined.

Example interval_15 :
  config (exec (Client.parseArgs (mkWorld [] noEnv false (scanGives ""))
                  [("--interval", JS.VStr "15")])
            (fresh defaults (noFaults None)))
  = mkCONFIG "qq" 15000 1000.
Proof. reflexivity. Qed.

Example interval_negative_from_env :
  config (exec (Client.parseArgs
                  (mkWorld []
                     (fun k => if String.eqb k "INTERVAL"
                               then Some "-3" else None)
                     false (scanGives ""))
                  [])
            (fresh defaults (noFaults None)))
  = mkCONFIG "qq" 1000 1000.
Proof. reflexivity. Qed.

Example interval_zero_not_applied :
  config (exec (Client.parseArgs (mkWorld [] noEnv false (scanGives ""))
                  [("--interval", JS.VStr "0")])
            (fresh defaults (noFaults None)))
  = defaults.
Proof. reflexivity. Qed.

(** ** Running [main] *)

(** Symbolic run of a computation on a process whose fields are variables:
    unfold the monad and the callees, then split on the test that blocks
    the run. *)
Ltac eval_m :=
  cbv beta iota zeta delta
    [bind ret get modify call when throw tryCatch processExit exec fst snd
     negb andb orb JS.truthy
     setConfig setDisk setCalls setExited setOptions setLoginAttemptCount
     setScans setLoginPending setSocket setOnDisconnected setOnSigint
     config disk calls exited options loginAttemptCount scans loginPending
     socket onDisconnected onSigint file writeFault readFault unlinkFault
     code qrLogin useSavedCode
     Log.log Log.logWarn Log.logError Log.consoleLog Log.consoleWarn
     Log.consoleError
     CodeManager.existsSync CodeManager.readFileSync CodeManager.writeFileSync
     CodeManager.unlinkSync CodeManager.saveCode CodeManager.loadCode
     CodeManager.deleteCode
     connect Client.setPlatform Client.logStartup Client.clearScreen
     Client.shutdownAllModules Client.getQQFarmCodeByScan
     Client.acquireCodeByQrScan Client.close Client.onLoginSuccess
     Client.onLoginError Client.onDisconnected Client.main Client.program
     Client.boot
     Legacy.clearScreen Legacy.logStartup Legacy.onLoginSuccess
     Legacy.onLoginError Legacy.onSigint Legacy.main Legacy.program
     Legacy.boot].

Ltac atomic t :=
  lazymatch t with
  | context [if _ then _ else _] => fail
  | context [match _ with _ => _ end] => fail
  | _ => idtac
  end.

Ltac split_m :=
  match goal with
  | H : ?c = _ |- context [if ?c then _ else _] => rewrite H
  | H : ?x = _ |- context [match ?x with _ => _ end] => rewrite H
  | |- context [if ?c then _ else _] => atomic c; destruct c eqn:?
  | |- context [match ?x with _ => _ end] => atomic x; destruct x eqn:?
  end.

Ltac run_m := eval_m; repeat (split_m; eval_m).

(** [added] of a list of calls that extends the initial one. *)
Ltac added_calls :=
  unfold added; cbv beta iota zeta delta [calls];
  rewrite <- ?app_assoc; rewrite skipn_app, Nat.sub_diag, skipn_all.


Section BootFacts.

Variable w : World.

(** [main] starts no loop. *)
Lemma boot_starts_no_loop (p : Process) :
  extends isLoopStart p (Client.boot w p).
Proof.
  destruct (parseArgs_pure w (Client.getArgsMap (argv w)))
    as (o & g & Hparse & _).
  destruct p as [cfg [f wf rf uf] cl ex op n sc lp so od os].
  unfold extends. eval_m.
  destruct (JS.includes (argv w) "--verify");
    [rewrite <- ?app_assoc; eexists; split; reflexivity|].
  destruct (JS.includes (argv w) "--decode");
    [rewrite <- ?app_assoc; eexists; split; reflexivity|].
  rewrite Hparse.
  run_m; rewrite <- ?app_assoc; eexists; split; reflexivity.
Qed.

(** When [main] has called [connect], it has not exited, the socket exists,
    both listeners are registered and [CONFIG] is as [parseArgs] left it. *)
Lemma boot_connected (p : Process) :
  loginPending p = false ->
  loginPending (Client.boot w p) = true ->
  exited (Client.boot w p) = exited p
  /\ socket (Client.boot w p) = true
  /\ onDisconnected (Client.boot w p) = true
  /\ onSigint (Client.boot w p) = true
  /\ exists o q,
      Client.parseArgs w (Client.getArgsMap (argv w)) p = (Ret o, q)
      /\ config (Client.boot w p) = config q.
Proof.
  destruct (parseArgs_pure w (Client.getArgsMap (argv w)))
    as (o & g & Hparse & _).
  destruct p as [cfg [f wf rf uf] cl ex op n sc lp so od os].
  simpl loginPending. intros ->.
  eval_m.
  destruct (JS.includes (argv w) "--verify"); [discriminate|].
  destruct (JS.includes (argv w) "--decode"); [discriminate|].
  rewrite Hparse.
  run_m; intros H; try discriminate H;
    (repeat split;
     eexists; eexists; split; [apply Hparse | reflexivity]).
Qed.



End BootFacts.

(** ** The callbacks of client.js *)

Section ClientHandlerFacts.

Lemma close_run (p : Process) :
  Client.close p
  = (Halt,
     setExited (Some 0) (setCalls (calls p ++ closePath (socket p)) p)).
Proof.
  destruct p as [cfg d cl ex op n sc lp so od os].
  unfold closePath. eval_m.
  destruct so; rewrite <- !app_assoc; reflexivity.
Qed.

Lemma onDisconnected_run (c : Z) (p : Process) :
  Client.onDisconnected c p
  = (Halt,
     setExited (Some 0)
       (setCalls (calls p ++ disconnectedLine c :: closePath (socket p)) p)).
Proof.
  destruct p as [cfg d cl ex op n sc lp so od os].
  unfold closePath, disconnectedLine. eval_m.
  destruct so; rewrite <- !app_assoc; reflexivity.
Qed.

(** A failed login in client.js: the reason is logged, the credential file
    is deleted, the close path runs and the process exits with status 0. *)
Lemma onLoginError_run (reason : string) (p : Process) :
  exists l d,
    Client.onLoginError reason p
    = (Halt,
       setExited (Some 0)
         (setDisk d
            (setCalls (calls p ++ loginFailedLine reason :: l) p)))
    /\ existsb (fun c => isConnect c || isLoopStart c || isScan c
                         || isDisconnectedLine c) l = false
    /\ (unlinkFault (disk p) = None -> file d = None).
Proof.
  destruct p as [cfg [f wf rf uf] cl ex op n sc lp so od os].
  unfold loginFailedLine. run_m;
    rewrite <- ?app_assoc; cbn [app];
    (eexists; eexists; split; [reflexivity|]);
    (split; [reflexivity | simpl; congruence]).
Qed.

Lemma deliver_exited (h : Handlers) (events : list Event) (p : Process) :
  exited p <> None -> deliver h events p = p.
Proof.
  intros He. induction events as [|e events IH]; [reflexivity|].
  assert (D : dispatch h e p = p).
  { unfold dispatch. destruct (exited p); [reflexivity | contradiction]. }
  unfold deliver in *. simpl. rewrite D. exact IH.
Qed.

Lemma existsb_false_filter (bad : Call -> bool) (l : list Call) :
  existsb bad l = false -> filter bad l = [].
Proof.
  induction l as [|c l IH]; simpl; [reflexivity|].
  destruct (bad c); simpl; [discriminate|exact IH].
Qed.

Lemma existsb_weaken (bad bad' : Call -> bool) (l : list Call) :
  (forall c, bad' c = true -> bad c = true) ->
  existsb bad l = false -> existsb bad' l = false.
Proof.
  intros Hw. induction l as [|c l IH]; simpl; [reflexivity|].
  destruct (bad c) eqn:Hc; simpl; [discriminate|].
  intros H. rewrite (IH H).
  destruct (bad' c) eqn:Hc'; [|reflexivity].
  rewrite (Hw c Hc') in Hc. discriminate.
Qed.

Ltac weaken B :=
  eapply existsb_weaken; [|exact B];
  let c := fresh "c" in
  let Hc := fresh "Hc" in
  intros c Hc; simpl; rewrite Hc; rewrite ?orb_true_r; reflexivity.

(** One event delivered to client.js. *)
Lemma client_dispatch_step (e : Event) (q : Process) :
  exists l,
    calls (dispatch Client.handlers e q) = (calls q ++ l)%list
    /\ existsb isConnect l = false
    /\ (existsb isLoopStart l = false
        \/ (e = LoginSucceeded /\ loginPending q = true /\ exited q = None))
    /\ (filter isDisconnectedLine l = []
        \/ (exited (dispatch Client.handlers e q) <> None
            /\ length (filter isDisconnectedLine l) = 1%nat))
    /\ (settled q -> settled (dispatch Client.handlers e q))
    /\ (forall r, e = LoginFailed r ->
                  settled (dispatch Client.handlers e q)).
Proof.
  unfold dispatch, settled.
  destruct (exited q) as [status|] eqn:He.
  { exists []. rewrite app_nil_r, He.
    repeat split; auto; left; discriminate. }
  destruct e as [|reason|c|]; simpl.
  - (* LoginSucceeded *)
    destruct (loginPending q) eqn:Hp.
    + rewrite onLoginSuccess_calls. simpl.
      exists (loopsStarted (farmCheckInterval (config q))).
      unfold loopsStarted.
      split; [reflexivity|].
      split; [destruct (_ >? 0); reflexivity|].
      split; [right; auto|].
      split; [left; destruct (_ >? 0); reflexivity|].
      split; [intros _; right; reflexivity | discriminate].
    + exists []. rewrite app_nil_r, He, Hp.
      repeat split; auto; discriminate.
  - (* LoginFailed *)
    destruct (loginPending q) eqn:Hp.
    + destruct (onLoginError_run reason (setLoginPending false q))
        as (l & d & E & B & _).
      rewrite E. simpl.
      exists (loginFailedLine reason :: l).
      split; [reflexivity|].
      split; [simpl; weaken B|].
      split; [left; simpl; weaken B|].
      split; [left; simpl; apply existsb_false_filter; weaken B|].
      split; intros; left; discriminate.
    + exists []. rewrite app_nil_r, He, Hp.
      repeat split; auto.
  - (* Disconnected *)
    destruct (onDisconnected q) eqn:Hd.
    + rewrite onDisconnected_run. simpl.
      exists (disconnectedLine c :: closePath (socket q)).
      split; [reflexivity|].
      split; [destruct (socket q); reflexivity|].
      split; [left; destruct (socket q); reflexivity|].
      split; [right; split; [discriminate | destruct (socket q); reflexivity]|].
      split; [intros; left; discriminate | discriminate].
    + exists []. rewrite app_nil_r, He.
      repeat split; auto. discriminate.
  - (* SIGINT *)
    destruct (onSigint q) eqn:Hs.
    + rewrite close_run. simpl.
      exists (closePath (socket q)).
      split; [reflexivity|].
      split; [destruct (socket q); reflexivity|].
      split; [left; destruct (socket q); reflexivity|].
      split; [left; destruct (socket q); reflexivity|].
      split; [intros; left; discriminate | discriminate].
    + exists []. simpl. rewrite app_nil_r.
      repeat split; auto; try discriminate. intros; left; discriminate.
Qed.

End ClientHandlerFacts.

(** ** Sequences of events in client.js *)

Section ClientRunFacts.

(** No callback of client.js calls [connect]. *)
Lemma client_deliver_no_connect (events : list Event) :
  forall q, extends isConnect q (deliver Client.handlers events q).
Proof.
  induction events as [|e events IH]; intros q; [apply extends_refl|].
  apply (extends_trans _ _ (dispatch Client.handlers e q)); [|apply IH].
  destruct (client_dispatch_step e q) as (l & E & C & _).
  exists l. split; assumption.
Qed.

(** Once the process is settled, no loop is started any more. *)
Lemma client_deliver_settled (events : list Event) :
  forall q, settled q ->
            extends isLoopStart q (deliver Client.handlers events q).
Proof.
  induction events as [|e events IH]; intros q Hq; [apply extends_refl|].
  destruct (client_dispatch_step e q) as (l & E & _ & L & _ & S & _).
  apply (extends_trans _ _ (dispatch Client.handlers e q));
    [|apply IH, S, Hq].
  exists l. split; [exact E|].
  destruct L as [L|(_ & Hp & He)]; [exact L|].
  destruct Hq as [Hq|Hq]; [rewrite He in Hq; contradiction | congruence].
Qed.


Lemma deliver_app (h : Handlers) (a b : list Event) (q : Process) :
  deliver h (a ++ b) q = deliver h b (deliver h a q).
Proof. unfold deliver. apply fold_left_app. Qed.

(** The ['disconnected'] listener logs its line at most once. *)
Lemma client_deliver_disconnected_once (events : list Event) :
  forall q, exists l,
    calls (deliver Client.handlers events q) = (calls q ++ l)%list
    /\ (length (filter isDisconnectedLine l) <= 1)%nat.
Proof.
  induction events as [|e events IH]; intros q.
  - exists []. split; [symmetry; apply app_nil_r | simpl; lia].
  - destruct (client_dispatch_step e q) as (l & E & _ & _ & D & _).
    destruct D as [D|(Hex & D)].
    + destruct (IH (dispatch Client.handlers e q)) as (l' & E' & D').
      exists (l ++ l')%list. split.
      * change (deliver Client.handlers (e :: events) q)
          with (deliver Client.handlers events (dispatch Client.handlers e q)).
        rewrite E', E, app_assoc. reflexivity.
      * rewrite filter_app, D. exact D'.
    + exists l. split.
      * change (deliver Client.handlers (e :: events) q)
          with (deliver Client.handlers events (dispatch Client.handlers e q)).
        rewrite (deliver_exited _ _ _ Hex). exact E.
      * lia.
Qed.

End ClientRunFacts.




(** C3, on client.js.  Whatever code was used, a failed login makes
    client.js delete the credential file and leave through the close path
    with status 0: no QR scan is requested and [connect] is not called
    again, whatever happens afterwards.  The retry of the claim is absent
    from this copy of the entry point. *)
Theorem client_login_failure_no_retry
        (p : Process) (reason : string) (later : list Event) :
  exited p = None ->
  loginPending p = true ->
  exited (deliver Client.handlers (LoginFailed reason :: later) p) = Some 0
  /\ existsb (fun c => isConnect c || isScan c)
       (added p (deliver Client.handlers (LoginFailed reason :: later) p))
     = false
  /\ (unlinkFault (disk p) = None ->
      file (disk (deliver Client.handlers (LoginFailed reason :: later) p))
      = None).
Proof.
  intros He Hp.
  change (deliver Client.handlers (LoginFailed reason :: later) p)
    with (deliver Client.handlers later
            (dispatch Client.handlers (LoginFailed reason) p)).
  assert (D : exists l d,
             dispatch Client.handlers (LoginFailed reason) p
             = setExited (Some 0)
                 (setDisk d
                    (setCalls (calls p ++ loginFailedLine reason :: l)
                       (setLoginPending false p)))
             /\ existsb (fun c => isConnect c || isScan c) l = false
             /\ (unlinkFault (disk p) = None -> file d = None)).
  { unfold dispatch. rewrite He, Hp. cbn [loginError Client.handlers].
    destruct (onLoginError_run reason (setLoginPending false p))
      as (l & d & E & B & F).
    exists l, d. rewrite E. split; [reflexivity|]. split; [|exact F].
    eapply existsb_weaken; [|exact B].
    intros c Hc. simpl.
    destruct (isConnect c); [reflexivity|]. simpl in Hc. rewrite Hc.
    rewrite orb_true_r. reflexivity. }
  destruct D as (l & d & D & B & F).
  rewrite deliver_exited; rewrite D; [|discriminate].
  split; [reflexivity|]. split; [|exact F].
  rewrite (added_app p _ (loginFailedLine reason :: l)); [|reflexivity].
  exact B.
Qed.

Lemma client_login_failure_no_retry_witness :
  exited (deliver Client.handlers [LoginFailed "code expired"] connectedSaved)
  = Some 0
  /\ existsb (fun c => isConnect c || isScan c)
       (added connectedSaved
          (deliver Client.handlers [LoginFailed "code expired"] connectedSaved))
     = false
  /\ (unlinkFault (disk connectedSaved) = None ->
      file (disk (deliver Client.handlers [LoginFailed "code expired"]
                    connectedSaved))
      = None).
Proof.
  refine (client_login_failure_no_retry connectedSaved "code expired" [] _ _);
    vm_compute; reflexivity.
Defined.

(** The run of C3 in full: [node client.js] finds the saved code "old123",
    the server rejects it; the file is deleted and the process ends with
    status 0 after a single [connect]. *)
Example client_saved_code_rejected :
  let q := Client.run savedWorld [LoginFailed "code expired"]
             (fresh defaults (noFaults (Some "old123"))) in
  filter (fun c => isConnect c || isScan c) (calls q)
  = [Connect (JS.VStr "old123")]
  /\ useSavedCode (options q) = true
  /\ file (disk q) = None
  /\ exited q = Some 0.
Proof. vm_compute. repeat split. Qed.

(** C7.  In client.js SIGINT and ['disconnected'] run the same close path:
    status bar, the four loops and the session are stopped in this order,
    the socket is closed if there is one, and the process exits with status
    0; the listener of ['disconnected'] logs the code first.  After the
    drop nothing is delivered any more, so [connect] is never called again.
    Over any sequence of events the listener of ['disconnected'] logs its
    line at most once.  [main] registers both listeners whenever it has
    called [connect], and the socket exists then. *)
Theorem shutdown_paths
        (p : Process) (c : Z) (later : list Event) :
  exited p = None ->
  onSigint p = true ->
  onDisconnected p = true ->
  added p (dispatch Client.handlers SIGINT p) = closePath (socket p)
  /\ exited (dispatch Client.handlers SIGINT p) = Some 0
  /\ added p (dispatch Client.handlers (Disconnected c) p)
     = disconnectedLine c :: closePath (socket p)
  /\ exited (dispatch Client.handlers (Disconnected c) p) = Some 0
  /\ (socket p = true -> In WsClose (closePath (socket p)))
  /\ deliver Client.handlers (Disconnected c :: later) p
     = dispatch Client.handlers (Disconnected c) p
  /\ existsb isConnect
       (added p (deliver Client.handlers (Disconnected c :: later) p))
     = false
  /\ (forall events q,
         (length (filter isDisconnectedLine
                    (added q (deliver Client.handlers events q))) <= 1)%nat)
  /\ (forall w p0,
         loginPending p0 = false ->
         loginPending (Client.boot w p0) = true ->
         exited (Client.boot w p0) = exited p0
         /\ socket (Client.boot w p0) = true
         /\ onDisconnected (Client.boot w p0) = true
         /\ onSigint (Client.boot w p0) = true).
Proof.
  intros He Hs Hd.
  assert (S : dispatch Client.handlers SIGINT p
              = setExited (Some 0)
                  (setCalls (calls p ++ closePath (socket p)) p)).
  { unfold dispatch. rewrite He, Hs. cbn [sigint Client.handlers].
    rewrite close_run. reflexivity. }
  assert (D : dispatch Client.handlers (Disconnected c) p
              = setExited (Some 0)
                  (setCalls
                     (calls p ++ disconnectedLine c :: closePath (socket p))
                     (setOnDisconnected false p))).
  { unfold dispatch. rewrite He, Hd. cbn [disconnected Client.handlers].
    rewrite onDisconnected_run. reflexivity. }
  assert (L : deliver Client.handlers (Disconnected c :: later) p
              = dispatch Client.handlers (Disconnected c) p).
  { change (deliver Client.handlers (Disconnected c :: later) p)
      with (deliver Client.handlers later
              (dispatch Client.handlers (Disconnected c) p)).
    apply deliver_exited. rewrite D. discriminate. }
  repeat split.
  - rewrite S. apply added_app. reflexivity.
  - rewrite S. reflexivity.
  - rewrite D. apply added_app. reflexivity.
  - rewrite D. reflexivity.
  - intros ->. simpl. tauto.
  - exact L.
  - apply extends_added, client_deliver_no_connect.
  - intros events q.
    destruct (client_deliver_disconnected_once events q) as (l & E & B).
    rewrite (added_app _ _ _ E). exact B.
  - apply (boot_connected w p0); assumption.
  - apply (boot_connected w p0); assumption.
  - apply (boot_connected w p0); assumption.
  - apply (boot_connected w p0); assumption.
Qed.

Lemma shutdown_paths_witness :
  added connected (dispatch Client.handlers SIGINT connected)
  = closePath true
  /\ added connected (dispatch Client.handlers (Disconnected 1006) connected)
     = disconnectedLine 1006 :: closePath true.
Proof.
  assert (H : exited connected = None
              /\ onSigint connected = true
              /\ onDisconnected connected = true)
    by (vm_compute; repeat split).
  destruct H as (He & Hs & Hd).
  destruct (shutdown_paths connected 1006 [SIGINT] He Hs Hd)
    as (A & _ & B & _).
  split; [exact A | exact B].
Defined.

(** C1.  When the login succeeds, the friend patrol is started exactly when
    the own-farm interval is not zero, the interval being a delay that is
    not negative; replacing the friend interval changes nothing of what the
    callback does; the own-farm loop, the task system and the sell loop are
    started in every case.  Both copies of the entry point agree.  [main]
    keeps the own-farm interval non-negative when the default of
    src/config.js is. *)
Theorem friend_patrol_start_condition (p : Process) :
  exited p = None ->
  loginPending p = true ->
  0 <= farmCheckInterval (config p) ->
  (In StartFriendCheckLoop (added p (dispatch Client.handlers LoginSucceeded p))
   <-> farmCheckInterval (config p) <> 0)
  /\ (forall ms,
         added (withFriendInterval ms p)
           (dispatch Client.handlers LoginSucceeded (withFriendInterval ms p))
         = added p (dispatch Client.handlers LoginSucceeded p))
  /\ In StartFarmCheckLoop (added p (dispatch Client.handlers LoginSucceeded p))
  /\ In InitTaskSystem (added p (dispatch Client.handlers LoginSucceeded p))
  /\ In (StartSellLoop 60000)
        (added p (dispatch Client.handlers LoginSucceeded p))
  /\ (forall w,
         added p (dispatch (Legacy.handlers w) LoginSucceeded p)
         = added p (dispatch Client.handlers LoginSucceeded p))
  /\ (forall w p0,
         loginPending p0 = false ->
         loginPending (Client.boot w p0) = true ->
         0 <= farmCheckInterval (config p0) ->
         0 <= farmCheckInterval (config (Client.boot w p0))).
Proof.
  intros He Hp Hfarm.
  rewrite (dispatch_loginSucceeded Client.handlers p He Hp
             onLoginSuccess_calls).
  unfold loopsStarted.
  split; [|split; [|split; [|split; [|split; [|split]]]]].
  - destruct (Z.gtb_spec (farmCheckInterval (config p)) 0) as [Hpos|Hneg];
      simpl.
    + split; [lia | intros _; tauto].
    + split; [intros H | intros H; lia].
      repeat destruct H as [H|H]; try discriminate H; contradiction.
  - intros ms.
    rewrite (dispatch_loginSucceeded Client.handlers (withFriendInterval ms p)
               He Hp onLoginSuccess_calls).
    reflexivity.
  - simpl. tauto.
  - destruct (farmCheckInterval (config p) >? 0); simpl; tauto.
  - destruct (farmCheckInterval (config p) >? 0); simpl; tauto.
  - intros w.
    apply (dispatch_loginSucceeded (Legacy.handlers w) p He Hp
             legacy_onLoginSuccess_calls).
  - intros w p0 Hp0 Hboot Hdefault.
    destruct (boot_connected w p0 Hp0 Hboot)
      as (_ & _ & _ & _ & o & q & E & ->).
    destruct (parseArgs_pure w (Client.getArgsMap (argv w)))
      as (o' & g & H & G).
    rewrite H in E. inversion E; subst. simpl.
    destruct (G (config p0)) as [[Hg | (v & _ & Hg)] _];
      rewrite Hg; lia.
Qed.

Lemma friend_patrol_start_condition_witness :
  In StartFriendCheckLoop
    (added connected (dispatch Client.handlers LoginSucceeded connected))
  <-> farmCheckInterval (config connected) <> 0.
Proof.
  refine (proj1 (friend_patrol_start_condition connected _ _ _)).
  - vm_compute; reflexivity.
  - vm_compute; reflexivity.
  - vm_compute; discriminate.
Defined.



(** ** The second copy of the entry point *)

Section LegacyFacts.

Variable w : World.

(** The first failure of a login made with the saved code: the file is
    deleted, a new code is scanned and saved, and [connect] is called once
    more. *)
Lemma legacy_login_failure_retries (p : Process) (reason c : string) :
  exited p = None ->
  loginPending p = true ->
  useSavedCode (options p) = true ->
  loginAttemptCount p = 0 ->
  platform (config p) = "qq" ->
  qrScan w (scans p) = Scanned c ->
  filter (fun x => isConnect x || isScan x)
    (added p (dispatch (Legacy.handlers w) (LoginFailed reason) p))
  = [GetQQFarmCodeByScan; Connect (JS.VStr c)]
  /\ exited (dispatch (Legacy.handlers w) (LoginFailed reason) p) = None
  /\ loginPending (dispatch (Legacy.handlers w) (LoginFailed reason) p) = true
  /\ useSavedCode
       (options (dispatch (Legacy.handlers w) (LoginFailed reason) p))
     = false
  /\ loginAttemptCount (dispatch (Legacy.handlers w) (LoginFailed reason) p)
     = 1
  /\ (unlinkFault (disk p) = None -> writeFault (disk p) = None ->
      file (disk (dispatch (Legacy.handlers w) (LoginFailed reason) p))
      = Some c).
Proof.
  destruct p as [[pf farm friend] [f wf rf uf] cl ex [oc oq ou] n sc lp so od os].
  simpl. intros -> -> -> -> -> Hscan.
  unfold dispatch, settle.
  cbn [exited loginPending loginError Legacy.handlers].
  run_m; try discriminate;
    added_calls; repeat split; try reflexivity; try congruence.
Qed.

(** Every other failure ends the process with status 1, with no further
    [connect]. *)
Lemma legacy_login_failure_gives_up (p : Process) (reason : string) :
  exited p = None ->
  loginPending p = true ->
  useSavedCode (options p) = false \/ loginAttemptCount p <> 0 ->
  filter (fun x => isConnect x || isScan x)
    (added p (dispatch (Legacy.handlers w) (LoginFailed reason) p))
  = []
  /\ exited (dispatch (Legacy.handlers w) (LoginFailed reason) p) = Some 1.
Proof.
  destruct p as [[pf farm friend] [f wf rf uf] cl ex [oc oq ou] n sc lp so od os].
  simpl. intros -> -> H.
  unfold dispatch, settle.
  cbn [exited loginPending loginError Legacy.handlers].
  run_m; try (added_calls; split; reflexivity).
  all: destruct H as [H|H]; [discriminate H|].
  all: exfalso; apply H; lia.
Qed.

End LegacyFacts.

(** The claim of C3 holds of the second copy: saved code rejected, one
    retry with a scanned code; rejected again, the process gives up. *)
Example legacy_saved_code_rejected_twice :
  let q := deliver (Legacy.handlers savedWorld)
             [LoginFailed "code expired"; LoginFailed "again"] legacySaved in
  filter (fun c => isConnect c || isScan c) (added legacySaved q)
  = [GetQQFarmCodeByScan; Connect (JS.VStr "fresh01")]
  /\ file (disk q) = Some "fresh01"
  /\ exited q = Some 1.
Proof. vm_compute. repeat split. Qed.

(** * Further properties *)

(** ** What [trim] removes *)

Section TrimFacts.

Lemma append_assoc (a b c : string) : (a ++ b) ++ c = a ++ (b ++ c).
Proof. induction a; simpl; congruence. Qed.

Lemma append_empty_r (a : string) : a ++ "" = a.
Proof. induction a; simpl; congruence. Qed.

Lemma dropPrefix_split (t s r : string) :
  JS.dropPrefix t s = Some r -> s = t ++ r.
Proof.
  revert s. induction t as [|a t IH]; intros s; simpl.
  - intros H. inversion H. reflexivity.
  - destruct s as [|b s]; [discriminate|].
    destruct (Ascii.eqb_spec a b) as [->|]; [|discriminate].
    intros H. rewrite (IH s H). reflexivity.
Qed.

Lemma dropPrefix_append (t r : string) : JS.dropPrefix t (t ++ r) = Some r.
Proof.
  induction t as [|a t IH]; simpl; [reflexivity|].
  rewrite Ascii.eqb_refl. exact IH.
Qed.

Lemma stripOneOf_split (tokens : list string) (s r : string) :
  JS.stripOneOf tokens s = Some r ->
  exists t, In t tokens /\ s = t ++ r.
Proof.
  induction tokens as [|t tokens IH]; simpl; [discriminate|].
  destruct (JS.dropPrefix t s) as [rest|] eqn:E.
  - intros H. inversion H; subst. exists t. split; [left; reflexivity|].
    apply dropPrefix_split, E.
  - intros H. destruct (IH H) as (t' & Hin & Hs). exists t'. tauto.
Qed.

Lemma whiteSpaceOnly_append (a b : string) :
  JS.WhiteSpaceOnly a -> JS.WhiteSpaceOnly b -> JS.WhiteSpaceOnly (a ++ b).
Proof.
  induction 1 as [|t s Ht Hs IH]; intros Hb; [exact Hb|].
  rewrite append_assoc. apply JS.wso_more; [exact Ht | exact (IH Hb)].
Qed.

Lemma whiteSpaceOnly_token (t : string) :
  In t JS.whiteSpace -> JS.WhiteSpaceOnly t.
Proof.
  intros H. rewrite <- (append_empty_r t).
  apply JS.wso_more; [exact H | constructor].
Qed.

(** [trimStart] strips white space, and all of it. *)
Lemma trimStartLoop_split (n : nat) :
  forall s, exists w,
    JS.WhiteSpaceOnly w /\ s = w ++ JS.trimStartLoop n s.
Proof.
  induction n as [|n IH]; intros s; simpl.
  - exists "". split; [constructor|].
    destruct (JS.stripWhiteSpace s); reflexivity.
  - destruct (JS.stripWhiteSpace s) as [rest|] eqn:E.
    + destruct (stripOneOf_split _ _ _ E) as (t & Ht & Hs).
      destruct (IH rest) as (w & Hw & Hrest).
      exists (t ++ w). split; [apply JS.wso_more; assumption|].
      rewrite append_assoc, <- Hrest. exact Hs.
    + exists "". split; [constructor | reflexivity].
Qed.

Lemma trimStartLoop_done (n : nat) :
  forall s, (String.length s <= n)%nat ->
            JS.stripWhiteSpace (JS.trimStartLoop n s) = None.
Proof.
  induction n as [|n IH]; intros s Hn; simpl.
  - destruct (JS.stripWhiteSpace s) as [rest|] eqn:E; [|exact E].
    destruct (stripOneOf_split _ _ _ E) as (t & Ht & Hs).
    pose proof (whiteSpace_nonempty t Ht).
    rewrite Hs, length_append in Hn. lia.
  - destruct (JS.stripWhiteSpace s) as [rest|] eqn:E; [|exact E].
    apply IH.
    destruct (stripOneOf_split _ _ _ E) as (t & Ht & Hs).
    pose proof (whiteSpace_nonempty t Ht).
    rewrite Hs, length_append in Hn. lia.
Qed.

Lemma list_of_append (a b : string) :
  list_ascii_of_string (a ++ b)
  = (list_ascii_of_string a ++ list_ascii_of_string b)%list.
Proof. induction a; simpl; congruence. Qed.

Lemma string_of_app (l1 l2 : list ascii) :
  string_of_list_ascii (l1 ++ l2)
  = string_of_list_ascii l1 ++ string_of_list_ascii l2.
Proof. induction l1; simpl; congruence. Qed.

Lemma reverse_append (a b : string) :
  JS.reverse (a ++ b) = JS.reverse b ++ JS.reverse a.
Proof.
  unfold JS.reverse. rewrite list_of_append, rev_app_distr.
  apply string_of_app.
Qed.

Lemma length_string_of (l : list ascii) :
  String.length (string_of_list_ascii l) = List.length l.
Proof. induction l; simpl; congruence. Qed.

Lemma length_list_of (s : string) :
  List.length (list_ascii_of_string s) = String.length s.
Proof. induction s; simpl; congruence. Qed.

Lemma length_reverse (s : string) :
  String.length (JS.reverse s) = String.length s.
Proof.
  unfold JS.reverse.
  rewrite length_string_of, length_rev. apply length_list_of.
Qed.

Lemma reversed_token (t' : string) :
  In t' (map JS.reverse JS.whiteSpace) ->
  exists t, In t JS.whiteSpace /\ t' = JS.reverse t.
Proof.
  intros H. apply in_map_iff in H. destruct H as (t & <- & Hin).
  exists t. tauto.
Qed.

Lemma trimEndLoop_split (n : nat) :
  forall r, exists w,
    JS.WhiteSpaceOnly (JS.reverse w) /\ r = w ++ JS.trimEndLoop n r.
Proof.
  induction n as [|n IH]; intros r; simpl.
  - exists "". split; [constructor|].
    destruct (JS.stripWhiteSpaceEnd r); reflexivity.
  - destruct (JS.stripWhiteSpaceEnd r) as [rest|] eqn:E.
    + destruct (stripOneOf_split _ _ _ E) as (t' & Ht' & Hr).
      destruct (reversed_token t' Ht') as (t & Ht & ->).
      destruct (IH rest) as (w & Hw & Hrest).
      exists (JS.reverse t ++ w). split.
      * rewrite reverse_append, reverse_involutive.
        apply whiteSpaceOnly_append;
          [exact Hw | apply whiteSpaceOnly_token, Ht].
      * rewrite append_assoc, <- Hrest. exact Hr.
    + exists "". split; [constructor | reflexivity].
Qed.

Lemma trimEndLoop_done (n : nat) :
  forall r, (String.length r <= n)%nat ->
            JS.stripWhiteSpaceEnd (JS.trimEndLoop n r) = None.
Proof.
  assert (Hlen : forall r rest,
             JS.stripWhiteSpaceEnd r = Some rest ->
             (String.length rest < String.length r)%nat).
  { intros r rest E.
    destruct (stripOneOf_split _ _ _ E) as (t' & Ht' & Hr).
    destruct (reversed_token t' Ht') as (t & Ht & ->).
    pose proof (whiteSpace_nonempty t Ht).
    rewrite Hr, length_append, length_reverse. lia. }
  induction n as [|n IH]; intros r Hn; simpl.
  - destruct (JS.stripWhiteSpaceEnd r) as [rest|] eqn:E; [|exact E].
    pose proof (Hlen _ _ E). lia.
  - destruct (JS.stripWhiteSpaceEnd r) as [rest|] eqn:E; [|exact E].
    apply IH. pose proof (Hlen _ _ E). lia.
Qed.

(** [trim s] is [s] without the white space at its two ends, and has none
    left there. *)
Lemma trim_spec (s : string) :
  (exists before after,
      JS.WhiteSpaceOnly before /\ JS.WhiteSpaceOnly after
      /\ s = before ++ JS.trim s ++ after)
  /\ JS.leadingWhiteSpace (JS.trim s) = false
  /\ JS.trailingWhiteSpace (JS.trim s) = false.
Proof.
  unfold JS.trim.
  destruct (trimStartLoop_split (String.length s) s) as (w1 & Hw1 & Hs).
  fold (JS.trimStart s) in Hs.
  set (m := JS.trimStart s) in *.
  destruct (trimEndLoop_split (String.length m) (JS.reverse m))
    as (w2 & Hw2 & Hm).
  assert (Hm' : m = JS.trimEnd m ++ JS.reverse w2).
  { rewrite <- (reverse_involutive m) at 1. rewrite Hm at 1.
    rewrite reverse_append. reflexivity. }
  split; [|split].
  - exists w1, (JS.reverse w2). repeat split; try assumption.
    rewrite <- Hm'. exact Hs.
  - unfold JS.leadingWhiteSpace.
    destruct (JS.stripWhiteSpace (JS.trimEnd m)) as [r|] eqn:E;
      [|reflexivity].
    destruct (stripOneOf_split _ _ _ E) as (t & Ht & Hr).
    pose proof (trimStartLoop_done (String.length s) s (le_n _)) as Hdone.
    fold (JS.trimStart s) in Hdone. fold m in Hdone.
    rewrite Hm', Hr, append_assoc in Hdone.
    rewrite (stripWhiteSpace_app t _ Ht) in Hdone. discriminate.
  - unfold JS.trailingWhiteSpace, JS.trimEnd.
    rewrite reverse_involutive.
    rewrite trimEndLoop_done; [reflexivity|].
    rewrite length_reverse. apply le_n.
Qed.

End TrimFacts.

(** ** More on the credential store *)

Section StoreFacts.

#[local] Arguments JS.trim : simpl never.

Lemma loadCode_disk (p : Process) :
  disk (exec CodeManager.loadCode p) = disk p.
Proof.
  destruct p as [cfg [f wf rf uf] cl ex op n sc lp so od os].
  destruct f, rf; reflexivity.
Qed.

Lemma loadCode_some (p : Process) (c : string) :
  fst (CodeManager.loadCode p) = Ret (Some c) ->
  exists content,
    file (disk p) = Some content /\ c = JS.trim content /\ c <> "".
Proof.
  destruct p as [cfg [f wf rf uf] cl ex op n sc lp so od os].
  destruct f as [content|], rf; simpl; try discriminate.
  destruct (String.eqb_spec (JS.trim content) "") as [|Hne];
    [discriminate|].
  intros H. inversion H; subst. exists content. repeat split. exact Hne.
Qed.


Lemma deleteCode_disk (p : Process) :
  unlinkFault (disk p) = None ->
  disk (exec CodeManager.deleteCode p)
  = mkFS None (writeFault (disk p)) (readFault (disk p)) None.
Proof.
  destruct p as [cfg [f wf rf uf] cl ex op n sc lp so od os]. simpl.
  intros ->. destruct f; reflexivity.
Qed.

Lemma deleteCode_fault (e : string) (p : Process) :
  unlinkFault (disk p) = Some e ->
  disk (exec CodeManager.deleteCode p) = disk p.
Proof.
  destruct p as [cfg [f wf rf uf] cl ex op n sc lp so od os]. simpl.
  intros ->. destruct f; reflexivity.
Qed.

End StoreFacts.

(** X1.  [loadCode] only reads: the disk is as before.  What it returns,
    when it is not null, is the content of the credential file without the
    white space at its two ends; it is never the empty string and has no
    white space left at either end. *)
Theorem loadCode_returns_trimmed_content (p : Process) :
  disk (exec CodeManager.loadCode p) = disk p
  /\ (forall c,
         fst (CodeManager.loadCode p) = Ret (Some c) ->
         c <> ""
         /\ JS.leadingWhiteSpace c = false
         /\ JS.trailingWhiteSpace c = false
         /\ exists content before after,
             file (disk p) = Some content
             /\ JS.WhiteSpaceOnly before
             /\ JS.WhiteSpaceOnly after
             /\ content = before ++ c ++ after).
Proof.
  split; [apply loadCode_disk|].
  intros c H. destruct (loadCode_some p c H) as (content & Hf & -> & Hne).
  destruct (trim_spec content) as ((b & a & Hb & Ha & Hc) & Hl & Ht).
  repeat split; try assumption.
  exists content, b, a. repeat split; assumption.
Qed.

Lemma loadCode_returns_trimmed_content_witness :
  "abc123" <> ""
  /\ JS.leadingWhiteSpace "abc123" = false
  /\ JS.trailingWhiteSpace "abc123" = false
  /\ exists content before after,
      file (disk (fresh defaults (noFaults (Some (" abc123" ++ JS.utf8 [10])))))
      = Some content
      /\ JS.WhiteSpaceOnly before
      /\ JS.WhiteSpaceOnly after
      /\ content = before ++ "abc123" ++ after.
Proof.
  refine (proj2 (loadCode_returns_trimmed_content
                   (fresh defaults
                      (noFaults (Some (" abc123" ++ JS.utf8 [10])))))
            "abc123" _).
  vm_compute. reflexivity.
Defined.

(** X2.  On a disk that performs the write and the read, [loadCode] after
    [saveCode(code)] returns [code.trim()], or null when nothing is left of
    the code once trimmed; whatever the file held before is gone. *)
Theorem saveCode_then_loadCode (p : Process) (c : string) :
  writeFault (disk p) = None ->
  readFault (disk p) = None ->
  file (disk (exec (CodeManager.saveCode c) p)) = Some c
  /\ fst (CodeManager.loadCode (exec (CodeManager.saveCode c) p))
     = Ret (if String.eqb (JS.trim c) "" then None else Some (JS.trim c)).
Proof.
  intros Hw Hr.
  pose proof (saveCode_disk c p Hw) as Hd.
  split; [rewrite Hd; reflexivity|].
  apply loadCode_present; rewrite Hd; [reflexivity | exact Hr].
Qed.

Lemma saveCode_then_loadCode_witness :
  fst (CodeManager.loadCode
         (exec (CodeManager.saveCode (" abc123" ++ JS.utf8 [13; 10]))
            (fresh defaults (noFaults (Some "stale")))))
  = Ret (Some "abc123").
Proof.
  refine (proj2 (saveCode_then_loadCode
                   (fresh defaults (noFaults (Some "stale")))
                   (" abc123" ++ JS.utf8 [13; 10]) _ _));
    reflexivity.
Defined.



(** X4.  After [deleteCode] on a disk that allows the removal, the file is
    gone and [loadCode] returns null, whatever was saved; when the removal
    fails, the disk is as before. *)
Theorem deleteCode_then_loadCode (p : Process) :
  (unlinkFault (disk p) = None ->
   file (disk (exec CodeManager.deleteCode p)) = None
   /\ fst (CodeManager.loadCode (exec CodeManager.deleteCode p)) = Ret None)
  /\ (forall e, unlinkFault (disk p) = Some e ->
                disk (exec CodeManager.deleteCode p) = disk p).
Proof.
  split.
  - intros Hu. pose proof (deleteCode_disk p Hu) as Hd.
    split; [rewrite Hd; reflexivity|].
    apply loadCode_absent. rewrite Hd. reflexivity.
  - intros e. apply deleteCode_fault.
Qed.

Lemma deleteCode_then_loadCode_witness :
  fst (CodeManager.loadCode
         (exec CodeManager.deleteCode
            (exec (CodeManager.saveCode "abc123")
               (fresh defaults (noFaults None)))))
  = Ret None.
Proof.
  refine (proj2 (proj1 (deleteCode_then_loadCode
                          (exec (CodeManager.saveCode "abc123")
                             (fresh defaults (noFaults None)))) _)).
  reflexivity.
Defined.

(** ** More on the argument map *)

Section ArgsMapMoreFacts.

Lemma mapSet_In (k : string) (v : JS.value) (m : Client.ArgsMap)
      (e : string * JS.value) :
  In e (Client.mapSet k v m) -> e = (k, v) \/ In e m.
Proof.
  induction m as [|[k0 x] rest IH]; simpl.
  - intros [H|[]]. left. symmetry. exact H.
  - destruct (String.eqb_spec k0 k) as [->|Hne]; simpl.
    + intros [H|H]; [left; symmetry; exact H | right; right; exact H].
    + intros [H|H]; [right; left; exact H|].
      destruct (IH H); [left | right; right]; assumption.
Qed.

Lemma mapGet_mapSet_same (k : string) (v : JS.value) (m : Client.ArgsMap) :
  Client.mapGet k (Client.mapSet k v m) = Some v.
Proof.
  induction m as [|[k0 x] rest IH]; simpl.
  - rewrite String.eqb_refl. reflexivity.
  - destruct (String.eqb_spec k0 k) as [->|Hne]; simpl.
    + rewrite String.eqb_refl. reflexivity.
    + destruct (String.eqb_spec k0 k); [contradiction | exact IH].
Qed.

Lemma mapGet_mapSet_other (k k' : string) (v : JS.value)
      (m : Client.ArgsMap) :
  k <> k' ->
  Client.mapGet k' (Client.mapSet k v m) = Client.mapGet k' m.
Proof.
  intros Hne. induction m as [|[k0 x] rest IH]; simpl.
  - destruct (String.eqb_spec k k'); [contradiction | reflexivity].
  - destruct (String.eqb_spec k0 k) as [->|Hne0]; simpl.
    + destruct (String.eqb_spec k k'); [contradiction | reflexivity].
    + destruct (String.eqb_spec k0 k'); [reflexivity | exact IH].
Qed.

(** A property of the map that every [map.set] of the loop preserves holds
    of the result; the loop sets a bare word of the list to [true] and a
    flag of the list to the element that follows it, which is no flag. *)
Lemma getArgsMapLoop_sets (R : string -> JS.value -> Prop)
      (P : Client.ArgsMap -> Prop) :
  (forall k v m, R k v -> P m -> P (Client.mapSet k v m)) ->
  forall args,
    (forall k, In k args -> JS.startsWith k "--" = false -> R k JS.VTrue) ->
    (forall k s, In k args -> In s args ->
                 JS.startsWith k "--" = true ->
                 JS.startsWith s "--" = false -> R k (JS.VStr s)) ->
    forall m, P m -> P (Client.getArgsMapLoop args m).
Proof.
  intros Hset args.
  enough (H : forall n args,
             (List.length args <= n)%nat ->
             (forall k, In k args -> JS.startsWith k "--" = false ->
                        R k JS.VTrue) ->
             (forall k s, In k args -> In s args ->
                          JS.startsWith k "--" = true ->
                          JS.startsWith s "--" = false -> R k (JS.VStr s)) ->
             forall m, P m -> P (Client.getArgsMapLoop args m))
    by exact (H (List.length args) args (le_n _)).
  clear args. induction n as [|n IH]; intros args Hn Hw Hf m Hm.
  - destruct args; [exact Hm | simpl in Hn; lia].
  - destruct args as [|key rest]; [exact Hm|]. simpl.
    destruct (JS.startsWith key "--") eqn:Hkey; simpl.
    + destruct rest as [|value rest']; [exact Hm|].
      assert (Hw' : forall k, In k rest' -> JS.startsWith k "--" = false ->
                              R k JS.VTrue)
        by (intros k Hk; apply Hw; right; right; exact Hk).
      assert (Hf' : forall k s, In k rest' -> In s rest' ->
                                JS.startsWith k "--" = true ->
                                JS.startsWith s "--" = false ->
                                R k (JS.VStr s))
        by (intros k s Hk Hs; apply Hf; right; right; assumption).
      destruct (JS.startsWith value "--") eqn:Hvalue.
      * apply IH; try assumption. simpl in Hn. lia.
      * apply IH; try assumption; [simpl in Hn; lia|].
        apply Hset; [|exact Hm].
        apply Hf; [left; reflexivity | right; left; reflexivity
                  | exact Hkey | exact Hvalue].
    + apply IH.
      * simpl in Hn. lia.
      * intros k Hk. apply Hw. right. exact Hk.
      * intros k s Hk Hs. apply Hf; right; assumption.
      * apply Hset; [|exact Hm]. apply Hw; [left; reflexivity | exact Hkey].
Qed.

(** On a regular command line the loop is a sequence of [map.set]. *)
Lemma getArgsMapLoop_commandLine (pairs : list (string * string)) :
  regular pairs ->
  forall m,
    Client.getArgsMapLoop (commandLine pairs) m
    = fold_left (fun acc kv => Client.mapSet (fst kv) (JS.VStr (snd kv)) acc)
        pairs m.
Proof.
  induction 1 as [|[k v] rest [Hk Hv] _ IH]; intros m; [reflexivity|].
  simpl in *. rewrite Hk, Hv. simpl. apply IH.
Qed.

Lemma mapGet_fold_mapSet (key : string) (pairs : list (string * string)) :
  forall m,
    Client.mapGet key
      (fold_left (fun acc kv => Client.mapSet (fst kv) (JS.VStr (snd kv)) acc)
         pairs m)
    = match lookupLast key pairs with
      | Some v => Some (JS.VStr v)
      | None => Client.mapGet key m
      end.
Proof.
  induction pairs as [|[k v] rest IH]; intros m; [reflexivity|].
  simpl. rewrite IH.
  destruct (lookupLast key rest); [reflexivity|].
  destruct (String.eqb_spec k key) as [->|Hne].
  - apply mapGet_mapSet_same.
  - apply mapGet_mapSet_other, Hne.
Qed.

End ArgsMapMoreFacts.

(** X5.  In the map [getArgsMap] returns every key occurs once and is an
    element of the argument list; a key that is a flag is bound to a string
    that is an element of the list and is not a flag; a key that is not a
    flag is bound to [true]. *)
Theorem getArgsMap_entries (args : list string) :
  NoDup (map fst (Client.getArgsMap args))
  /\ (forall k v,
         In (k, v) (Client.getArgsMap args) ->
         In k args
         /\ entryOk k v
         /\ (forall s, v = JS.VStr s -> In s args)).
Proof.
  split; [apply getArgsMap_NoDup|].
  apply (getArgsMapLoop_sets
           (fun k v => In k args /\ entryOk k v
                       /\ (forall s, v = JS.VStr s -> In s args))
           (fun m => forall k v, In (k, v) m ->
                                 In k args /\ entryOk k v
                                 /\ (forall s, v = JS.VStr s -> In s args))).
  - intros k v m HR HP k' v' Hin.
    destruct (mapSet_In _ _ _ _ Hin) as [E|Hm]; [|exact (HP _ _ Hm)].
    inversion E; subst. exact HR.
  - intros k Hk Hb. repeat split; [exact Hk | exact Hb | discriminate].
  - intros k s Hk Hs Hfk Hfs. repeat split; try assumption.
    intros s' E. inversion E; subst. exact Hs.
  - intros k v [].
Qed.

Lemma getArgsMap_entries_witness :
  In "--interval" ["--interval"; "15"; "verbose"; "--wx"]
  /\ entryOk "--interval" (JS.VStr "15")
  /\ (forall s, JS.VStr "15" = JS.VStr s ->
                In s ["--interval"; "15"; "verbose"; "--wx"]).
Proof.
  refine (proj2 (getArgsMap_entries ["--interval"; "15"; "verbose"; "--wx"])
            "--interval" (JS.VStr "15") _).
  vm_compute. left. reflexivity.
Defined.

(** X6.  On a command line made of flags that are each followed by a value
    that is no flag, looking a flag up in the map gives the value of its
    last occurrence, and a flag that was not given is absent. *)
Theorem getArgsMap_last_value_wins
        (pairs : list (string * string)) (key : string) :
  regular pairs ->
  Client.mapGet key (Client.getArgsMap (commandLine pairs))
  = option_map JS.VStr (lookupLast key pairs).
Proof.
  intros Hreg. unfold Client.getArgsMap.
  rewrite (getArgsMapLoop_commandLine pairs Hreg), mapGet_fold_mapSet.
  destruct (lookupLast key pairs); reflexivity.
Qed.

Lemma getArgsMap_last_value_wins_witness :
  Client.mapGet "--interval"
    (Client.getArgsMap
       (commandLine [("--interval", "15"); ("--code", "abc123");
                     ("--interval", "30")]))
  = Some (JS.VStr "30").
Proof.
  refine (getArgsMap_last_value_wins
            [("--interval", "15"); ("--code", "abc123"); ("--interval", "30")]
            "--interval" _).
  repeat constructor.
Defined.

(** ** More on argument parsing *)

Section ParseArgsMoreFacts.

Lemma parseArgsCase_more (key : string) (value : JS.value)
      (l l1 : Client.Locals) (p q : Process) :
  Client.parseArgsCase key value l p = (Ret l1, q) ->
  platform (config q)
  = (if String.eqb key "--wx" then "wx"
     else if String.eqb key "--qq" then "qq" else platform (config p))
  /\ qrLogin (Client.l_options l1)
     = (if String.eqb key "--qr" then String.eqb (JS.toString value) "true"
        else qrLogin (Client.l_options l))
  /\ useSavedCode (Client.l_options l1) = useSavedCode (Client.l_options l).
Proof.
  unfold Client.parseArgsCase.
  repeat match goal with
         | |- context [if String.eqb key ?s then _ else _] =>
             destruct (String.eqb_spec key s) as [->|?]
         end;
    intros E; inversion E; repeat split; destruct value; reflexivity.
Qed.

Lemma parseArgsLoop_platform (entries : Client.ArgsMap) :
  forall l p l' q,
    Client.parseArgsLoop entries l p = (Ret l', q) ->
    platform (config q)
    = platformAfter (map fst entries) (platform (config p))
    /\ useSavedCode (Client.l_options l') = useSavedCode (Client.l_options l).
Proof.
  induction entries as [|[k v] rest IH]; intros l p l' q E.
  - inversion E. split; reflexivity.
  - simpl in E. unfold bind in E.
    destruct (Client.parseArgsCase k v l p) as [[l1| |] p1] eqn:E1;
      try discriminate E.
    destruct (parseArgsCase_more _ _ _ _ _ _ E1) as (Hp & _ & Hu).
    destruct (IH _ _ _ _ E) as (Hp' & Hu').
    split; [|congruence].
    rewrite Hp', Hp. reflexivity.
Qed.

(** [parseArgs] runs its loop from the options of the environment and
    returns the options the loop ends with; nothing but [CONFIG] changes. *)
Lemma parseArgs_loop (w : World) (argsMap : Client.ArgsMap)
      (p q : Process) (o : Options) :
  Client.parseArgs w argsMap p = (Ret o, q) ->
  exists l' i f p1,
    Client.parseArgsLoop argsMap (Client.mkLocals (optionsFromEnv w) i f)
      (setConfig (mkCONFIG (platformFromEnv w (platform (config p)))
                    (farmCheckInterval (config p))
                    (friendCheckInterval (config p))) p)
    = (Ret l', p1)
    /\ o = Client.l_options l'
    /\ platform (config q) = platform (config p1)
    /\ calls q = calls p /\ disk q = disk p /\ exited q = exited p.
Proof.
  destruct (parseArgs_pure w argsMap) as (o' & g & Hpure & _).
  intros E. pose proof E as E'. rewrite Hpure in E'.
  inversion E'; subst o' q. clear E'.
  revert E. unfold Client.parseArgs, bind.
  assert (E0 : forall cond name,
             when cond (Client.setPlatform name) p
             = (Ret tt,
                setConfig (mkCONFIG (if cond then name
                                     else platform (config p))
                             (farmCheckInterval (config p))
                             (friendCheckInterval (config p))) p)).
  { intros cond name. destruct p as [[pf fa fr] d cl ex op n sc lp so od os].
    destruct cond; reflexivity. }
  rewrite E0. fold (platformFromEnv w (platform (config p))).
  match goal with
  | |- context [Client.parseArgsLoop argsMap ?l ?p0] =>
      destruct (Client.parseArgsLoop argsMap l p0) as [[l'| |] p1] eqn:E;
      try discriminate
  end.
  intros Hfin.
  assert (Ho : o = Client.l_options l'
               /\ platform (config (setConfig (g (config p)) p))
                  = platform (config p1)).
  { revert Hfin.
    destruct (Client.l_interval l') as [iv|]; simpl;
      [destruct (iv =? 0); simpl|];
      (destruct (Client.l_friend_interval l') as [fv|]; simpl;
       [destruct (fv =? 0); simpl|]);
      intros Hfin; inversion Hfin; subst;
      (split; [reflexivity|]); simpl;
      try reflexivity;
      match goal with
      | H : _ = g (config p) |- _ => rewrite <- H; reflexivity
      end. }
  destruct Ho as (-> & Hplat).
  exists l'.
  match type of E with
  | Client.parseArgsLoop _ (Client.mkLocals ?o0 ?i ?f) _ = _ =>
      exists i, f, p1;
      assert (Hopt : o0 = optionsFromEnv w)
  end.
  { unfold optionsFromEnv, codeFromEnv.
    destruct (env w "QR_LOGIN") as [s|];
      [destruct (String.eqb s "true")|];
      destruct (JS.truthyOpt (env w "CODE")); reflexivity. }
  rewrite <- Hopt. split; [exact E|].
  repeat split. exact Hplat.
Qed.

Lemma platformAfter_values (keys : list string) :
  forall initial,
    platformAfter keys initial = initial
    \/ platformAfter keys initial = "qq"
    \/ platformAfter keys initial = "wx".
Proof.
  unfold platformAfter.
  induction keys as [|k keys IH]; intros initial; simpl; [tauto|].
  destruct (String.eqb k "--wx"); [|destruct (String.eqb k "--qq")].
  - destruct (IH "wx") as [H|[H|H]]; rewrite H; tauto.
  - destruct (IH "qq") as [H|[H|H]]; rewrite H; tauto.
  - apply IH.
Qed.

Lemma platformAfter_absent (keys : list string) :
  ~ In "--wx" keys -> ~ In "--qq" keys ->
  forall initial, platformAfter keys initial = initial.
Proof.
  unfold platformAfter.
  induction keys as [|k keys IH]; intros Hw Hq initial; simpl;
    [reflexivity|].
  destruct (String.eqb_spec k "--wx") as [->|_];
    [exfalso; apply Hw; left; reflexivity|].
  destruct (String.eqb_spec k "--qq") as [->|_];
    [exfalso; apply Hq; left; reflexivity|].
  apply IH; intros H; [apply Hw | apply Hq]; right; exact H.
Qed.

Lemma platformAfter_only (this other name : string) (keys : list string) :
  (this = "--wx" /\ other = "--qq" /\ name = "wx")
  \/ (this = "--qq" /\ other = "--wx" /\ name = "qq") ->
  ~ In other keys ->
  (forall initial, In this keys -> platformAfter keys initial = name)
  /\ platformAfter keys name = name.
Proof.
  unfold platformAfter. intros Hcase.
  induction keys as [|k keys IH]; intros Hother.
  - split; [intros initial []|reflexivity].
  - assert (Hother' : ~ In other keys)
      by (intros H; apply Hother; right; exact H).
    assert (Hk : k <> other)
      by (intros ->; apply Hother; left; reflexivity).
    destruct (IH Hother') as (IH1 & IH2).
    destruct Hcase as [(-> & -> & ->)|(-> & -> & ->)]; simpl.
    + destruct (String.eqb_spec k "--wx") as [->|Hne].
      * split; [intros initial _|]; exact IH2.
      * destruct (String.eqb_spec k "--qq"); [contradiction|].
        split; [|exact IH2].
        intros initial [H|H]; [contradiction | apply IH1, H].
    + destruct (String.eqb_spec k "--wx"); [contradiction|].
      destruct (String.eqb_spec k "--qq") as [->|Hne].
      * split; [intros initial _|]; exact IH2.
      * split; [|exact IH2].
        intros initial [H|H]; [contradiction | apply IH1, H].
Qed.

End ParseArgsMoreFacts.

(** X7.  [parseArgs] records no call, leaves the disk alone and does not
    exit.  The platform it leaves in [CONFIG] is decided by the keys of the
    map read in order, [--wx] and [--qq] each overriding what came before,
    starting from [PLATFORM] when that is 'qq' or 'wx' and from the
    configured platform otherwise.  So it is the configured platform, 'qq'
    or 'wx'; without either key it is what the environment selects; with
    one of the two keys and not the other it is the platform of that
    key. *)
Theorem parseArgs_platform (w : World) (argsMap : Client.ArgsMap)
        (p q : Process) (o : Options) :
  Client.parseArgs w argsMap p = (Ret o, q) ->
  calls q = calls p /\ disk q = disk p /\ exited q = exited p
  /\ platform (config q)
     = platformAfter (map fst argsMap)
         (platformFromEnv w (platform (config p)))
  /\ (platform (config q) = platform (config p)
      \/ platform (config q) = "qq" \/ platform (config q) = "wx")
  /\ (~ In "--wx" (map fst argsMap) -> ~ In "--qq" (map fst argsMap) ->
      platform (config q) = platformFromEnv w (platform (config p)))
  /\ (In "--wx" (map fst argsMap) -> ~ In "--qq" (map fst argsMap) ->
      platform (config q) = "wx")
  /\ (In "--qq" (map fst argsMap) -> ~ In "--wx" (map fst argsMap) ->
      platform (config q) = "qq").
Proof.
  intros E.
  destruct (parseArgs_loop w argsMap p q o E)
    as (l' & i & f & p1 & Eloop & _ & Hq & Hc & Hd & He).
  destruct (parseArgsLoop_platform _ _ _ _ _ Eloop) as (Hp1 & _).
  simpl in Hp1. rewrite <- Hq in Hp1.
  split; [exact Hc|]. split; [exact Hd|]. split; [exact He|].
  split; [exact Hp1|]. rewrite Hp1.
  split; [|split; [|split]].
  - destruct (platformAfter_values (map fst argsMap)
                (platformFromEnv w (platform (config p))))
      as [H|[H|H]]; rewrite H; try tauto.
    unfold platformFromEnv.
    destruct (JS.truthyOpt (env w "PLATFORM")); simpl; [|tauto].
    unfold JS.includes. simpl.
    destruct (String.eqb_spec (JS.toStringOpt (env w "PLATFORM")) "qq")
      as [->|_]; simpl; [tauto|].
    destruct (String.eqb_spec (JS.toStringOpt (env w "PLATFORM")) "wx")
      as [->|_]; simpl; tauto.
  - intros Hw Hqq. apply platformAfter_absent; assumption.
  - intros Hw Hqq.
    apply (platformAfter_only "--wx" "--qq" "wx"); [tauto | exact Hqq
                                                     | exact Hw].
  - intros Hqq Hw.
    apply (platformAfter_only "--qq" "--wx" "qq"); [tauto | exact Hw
                                                     | exact Hqq].
Qed.

Lemma parseArgs_platform_witness :
  platform
    (config
       (exec (Client.parseArgs
                (mkWorld []
                   (fun k => if String.eqb k "PLATFORM" then Some "qq"
                             else None)
                   false (scanGives ""))
                [("--wx", JS.VStr "1")])
          (fresh defaults (noFaults None))))
  = "wx".
Proof.
  assert (E : Client.parseArgs
                (mkWorld []
                   (fun k => if String.eqb k "PLATFORM" then Some "qq"
                             else None)
                   false (scanGives ""))
                [("--wx", JS.VStr "1")]
                (fresh defaults (noFaults None))
              = (Ret (mkOptions (JS.VStr "") false false),
                 exec (Client.parseArgs
                         (mkWorld []
                            (fun k => if String.eqb k "PLATFORM"
                                      then Some "qq" else None)
                            false (scanGives ""))
                         [("--wx", JS.VStr "1")])
                   (fresh defaults (noFaults None))))
    by (vm_compute; reflexivity).
  destruct (parseArgs_platform _ _ _ _ _ E) as (_ & _ & _ & _ & _ & _ & H & _).
  apply H; simpl; [tauto|].
  intros [H0|[]]. discriminate H0.
Defined.

(** X8.  With a map whose keys are distinct, as [getArgsMap] builds it, QR
    login is on after [parseArgs] exactly when [--qr] is bound to 'true'
    (or to [true]), or [--qr] is not a key and [QR_LOGIN] is 'true'; a
    [--qr] bound to anything else turns it off whatever [QR_LOGIN] says.
    [parseArgs] never marks the code as a saved one. *)
Theorem parseArgs_qrLogin (w : World) (argsMap : Client.ArgsMap)
        (p q : Process) (o : Options) :
  NoDup (map fst argsMap) ->
  Client.parseArgs w argsMap p = (Ret o, q) ->
  qrLogin o
  = match Client.mapGet "--qr" argsMap with
    | Some v => String.eqb (JS.toString v) "true"
    | None => qrLogin (optionsFromEnv w)
    end
  /\ useSavedCode o = false.
Proof.
  intros Hnd E.
  destruct (parseArgs_loop w argsMap p q o E)
    as (l' & i & f & p1 & Eloop & -> & _).
  split.
  - apply (parseArgsLoop_field (fun x => qrLogin (Client.l_options x))
             "--qr" (fun v => String.eqb (JS.toString v) "true")
             (fun k v l0 p0 l1 q0 H =>
                proj1 (proj2 (parseArgsCase_more k v l0 l1 p0 q0 H)))
             argsMap Hnd _ _ _ _ Eloop).
  - apply (parseArgsLoop_platform _ _ _ _ _ Eloop).
Qed.

Lemma parseArgs_qrLogin_witness :
  exists o q,
    Client.parseArgs qrWorld (Client.getArgsMap (argv qrWorld))
      (fresh defaults (noFaults None))
    = (Ret o, q)
    /\ qrLogin o = false
    /\ useSavedCode o = false.
Proof.
  exists (mkOptions (JS.VStr "") false false),
    (fresh defaults (noFaults None)).
  assert (E : Client.parseArgs qrWorld (Client.getArgsMap (argv qrWorld))
                (fresh defaults (noFaults None))
              = (Ret (mkOptions (JS.VStr "") false false),
                 fresh defaults (noFaults None)))
    by (vm_compute; reflexivity).
  split; [exact E|].
  exact (parseArgs_qrLogin qrWorld _ _ _ _
           (getArgsMap_NoDup (argv qrWorld)) E).
Defined.

(** ** The preview of the code and the QR scan *)

Section PreviewFacts.


End PreviewFacts.





(** ** The name of the log file *)

Section LogFileFacts.

Lemma forallb_range (P : Z -> bool) (lo hi : Z) :
  forallb P (range lo hi) = true ->
  forall n, lo <= n <= hi -> P n = true.
Proof.
  intros H n Hn. rewrite forallb_forall in H. apply H.
  unfold range. apply in_map_iff. exists (Z.to_nat (n - lo)). split.
  - lia.
  - apply in_seq. lia.
Qed.

Lemma readsBack_spec (width : nat) (s : string) (n : Z) :
  readsBack width s n = true ->
  String.length s = width /\ JS.parseInt s = Some n.
Proof.
  unfold readsBack. intros H. apply andb_prop in H. destruct H as [Hl Hp].
  split; [apply Nat.eqb_eq, Hl|].
  destruct (JS.parseInt s) as [m|]; [|discriminate].
  apply Z.eqb_eq in Hp. congruence.
Qed.

Lemma pad2_readsBack (n : Z) :
  0 <= n <= 99 -> readsBack 2 (LogFile.pad2 n) n = true.
Proof.
  apply (forallb_range (fun n => readsBack 2 (LogFile.pad2 n) n) 0 99).
  vm_compute. reflexivity.
Qed.

Lemma year_readsBack (y : Z) :
  1000 <= y <= 9999 -> readsBack 4 (JS.numberToString y) y = true.
Proof.
  apply (forallb_range (fun y => readsBack 4 (JS.numberToString y) y)
           1000 9999).
  vm_compute. reflexivity.
Qed.

Lemma pad2_shape (n : Z) :
  0 <= n <= 99 ->
  LogFile.pad2 n
  = if n <? 10 then "0" ++ JS.numberToString n else JS.numberToString n.
Proof.
  intros Hn. apply String.eqb_eq.
  apply (forallb_range
           (fun n => String.eqb (LogFile.pad2 n)
                       (if n <? 10 then "0" ++ JS.numberToString n
                        else JS.numberToString n)) 0 99);
    [vm_compute; reflexivity | exact Hn].
Qed.

Lemma append_same_length (a b x y : string) :
  String.length a = String.length b ->
  a ++ x = b ++ y -> a = b /\ x = y.
Proof.
  revert b. induction a as [|c a IH]; intros [|d b]; simpl;
    try discriminate.
  - intros _ H. split; [reflexivity | exact H].
  - intros Hl H. inversion H; subst.
    destruct (IH b) as [-> ->]; [lia | assumption | split; reflexivity].
Qed.

End LogFileFacts.

(** X11.  For the numbers from 0 to 99 [pad2] yields two characters: the
    decimal digits of the number, with a zero in front for the numbers below
    10; read back with [parseInt] they give the number again. *)
Theorem pad2_two_digits (n : Z) :
  0 <= n <= 99 ->
  String.length (LogFile.pad2 n) = 2%nat
  /\ LogFile.pad2 n
     = (if n <? 10 then "0" ++ JS.numberToString n
        else JS.numberToString n)
  /\ JS.parseInt (LogFile.pad2 n) = Some n.
Proof.
  intros Hn.
  destruct (readsBack_spec _ _ _ (pad2_readsBack n Hn)) as [Hl Hp].
  split; [exact Hl|]. split; [apply pad2_shape, Hn | exact Hp].
Qed.

Lemma pad2_two_digits_witness : LogFile.pad2 7 = "07".
Proof.
  refine (proj1 (proj2 (pad2_two_digits 7 _))). lia.
Defined.

(** X12.  For a date of the calendar with a year of four digits
    [getDateKey] yields ten characters, the year, the month counted from 1
    and the day, the last two on two digits, separated by dashes; two such
    dates with the same key are the same day, so each day has a log file
    of its own. *)
Theorem getDateKey_names_the_day (d : LogFile.Date) :
  LogFile.plausible d ->
  String.length (LogFile.getDateKey d) = 10%nat
  /\ (exists y m day,
         String.length y = 4%nat /\ String.length m = 2%nat
         /\ String.length day = 2%nat
         /\ LogFile.getDateKey d = y ++ "-" ++ m ++ "-" ++ day
         /\ JS.parseInt y = Some (LogFile.getFullYear d)
         /\ JS.parseInt m = Some (LogFile.getMonth d + 1)
         /\ JS.parseInt day = Some (LogFile.getDate d))
  /\ (forall d',
         LogFile.plausible d' ->
         LogFile.getDateKey d = LogFile.getDateKey d' -> d = d').
Proof.
  assert (Hparts : forall d, LogFile.plausible d ->
             (String.length (JS.numberToString (LogFile.getFullYear d))
              = 4%nat
              /\ JS.parseInt (JS.numberToString (LogFile.getFullYear d))
                 = Some (LogFile.getFullYear d))
             /\ (String.length (LogFile.pad2 (LogFile.getMonth d + 1))
                 = 2%nat
                 /\ JS.parseInt (LogFile.pad2 (LogFile.getMonth d + 1))
                    = Some (LogFile.getMonth d + 1))
             /\ (String.length (LogFile.pad2 (LogFile.getDate d)) = 2%nat
                 /\ JS.parseInt (LogFile.pad2 (LogFile.getDate d))
                    = Some (LogFile.getDate d))).
  { intros [y m day] (Hy & Hm & Hd). simpl in *.
    split; [|split]; apply readsBack_spec;
      [apply year_readsBack | apply pad2_readsBack | apply pad2_readsBack];
      lia. }
  intros Hd.
  destruct (Hparts d Hd) as ((Ly & Py) & (Lm & Pm) & (Ld & Pd)).
  split; [|split].
  - unfold LogFile.getDateKey. rewrite !length_append, Ly, Lm, Ld.
    reflexivity.
  - eexists; eexists; eexists.
    repeat split; [exact Ly | exact Lm | exact Ld | exact Py | exact Pm
                  | exact Pd].
  - intros d' Hd' Hkey.
    destruct (Hparts d' Hd') as ((Ly' & Py') & (Lm' & Pm') & (Ld' & Pd')).
    unfold LogFile.getDateKey in Hkey.
    apply append_same_length in Hkey; [|congruence].
    destruct Hkey as [Ey Hkey]. simpl in Hkey. inversion Hkey as [Hkey'].
    apply append_same_length in Hkey'; [|congruence].
    destruct Hkey' as [Em Hkey']. simpl in Hkey'.
    inversion Hkey' as [Eday].
    rewrite Ey in Py. rewrite Em in Pm. rewrite Eday in Pd.
    destruct d as [y m day], d' as [y' m' day']. simpl in *.
    f_equal; [congruence | | congruence].
    assert (m + 1 = m' + 1) by congruence. lia.
Qed.

Lemma getDateKey_names_the_day_witness :
  String.length (LogFile.getDateKey (LogFile.mkDate 2026 10 2)) = 10%nat.
Proof.
  refine (proj1 (getDateKey_names_the_day (LogFile.mkDate 2026 10 2) _)).
  unfold LogFile.plausible. simpl. lia.
Defined.

(** ** More on [main] *)

(** Rewriting with the tests already decided, then computing. *)
Ltac decided :=
  eval_m;
  repeat (match goal with
          | H : ?c = _ |- context [if ?c then _ else _] => rewrite H
          | H : ?x = _ |- context [match ?x with _ => _ end] => rewrite H
          end; eval_m).

Ltac eqb_facts :=
  repeat match goal with
         | H : String.eqb _ _ = true |- _ => apply String.eqb_eq in H
         | H : String.eqb _ _ = false |- _ => apply String.eqb_neq in H
         end.

(** Case analysis that follows the control flow: the scrutinee taken is the
    one the evaluation is waiting for, found by going down the scrutinee
    positions from the outermost match. *)
Ltac app_head t :=
  lazymatch t with
  | ?f _ => app_head f
  | _ => t
  end.

Ltac head_of t :=
  let h := app_head t in
  lazymatch h with
  | match ?x with _ => _ end => head_of x
  | _ => t
  end.

Ltac split_h :=
  match goal with
  | |- context [match ?x with _ => _ end] =>
      let s := head_of x in
      first [ match goal with H : s = _ |- _ => rewrite H end
            | destruct s eqn:? ]
  end.

Ltac run_h := eval_m; repeat (split_h; eval_m).

(** ** [main] up to [connect] *)

(** X13.  With [--verify] among the arguments, or else [--decode], [main]
    loads the proto definitions, runs the mode and returns: no argument is
    parsed, no file is read, nothing is connected and no listener is
    registered, whatever else the command line holds. *)
Theorem main_verify_decode_modes (w : World) (p : Process) :
  (JS.includes (argv w) "--verify" = true ->
   Client.boot w p = setCalls (calls p ++ [LoadProto; VerifyMode]) p)
  /\ (JS.includes (argv w) "--verify" = false ->
      JS.includes (argv w) "--decode" = true ->
      Client.boot w p
      = setCalls (calls p ++ [LoadProto; DecodeMode (argv w)]) p).
Proof.
  destruct p as [cfg d cl ex op n sc lp so od os].
  split.
  - intros Hv. eval_m. rewrite Hv. eval_m.
    rewrite <- app_assoc. reflexivity.
  - intros Hv Hd. eval_m. rewrite Hv, Hd. eval_m.
    rewrite <- app_assoc. reflexivity.
Qed.

Lemma main_verify_decode_modes_witness :
  Client.boot verifyWorld (fresh defaults (noFaults None))
  = setCalls [LoadProto; VerifyMode] (fresh defaults (noFaults None))
  /\ Client.boot decodeWorld (fresh defaults (noFaults None))
     = setCalls [LoadProto; DecodeMode ["--decode"; "0a02"]]
         (fresh defaults (noFaults None)).
Proof.
  split.
  - refine (proj1 (main_verify_decode_modes verifyWorld
                     (fresh defaults (noFaults None))) _).
    reflexivity.
  - refine (proj2 (main_verify_decode_modes decodeWorld
                     (fresh defaults (noFaults None))) _ _);
      reflexivity.
Defined.

Section MainFacts.

Variable w : World.

(** [main] calls [connect] at most once, with a code that is not empty,
    and then returns without exiting, the code being the one of the options
    the callbacks see; when it exits, the status is 1 and [connect] has not
    been called; it never removes the credential file. *)
Lemma boot_connect (p : Process) :
  (filter isConnect (added p (Client.boot w p)) = []
   \/ exists c,
       filter isConnect (added p (Client.boot w p)) = [Connect c]
       /\ JS.truthy c = true
       /\ code (options (Client.boot w p)) = c
       /\ exited (Client.boot w p) = exited p)
  /\ (exited (Client.boot w p) = exited p
      \/ (exited (Client.boot w p) = Some 1
          /\ filter isConnect (added p (Client.boot w p)) = []))
  /\ existsb isFsUnlink (added p (Client.boot w p)) = false.
Proof.
  destruct (parseArgs_pure w (Client.getArgsMap (argv w)))
    as (o & g & Hparse & _).
  destruct p as [cfg [f wf rf uf] cl ex op n sc lp so od os].
  eval_m.
  destruct (JS.includes (argv w) "--verify");
    [added_calls; repeat split; left; reflexivity|].
  destruct (JS.includes (argv w) "--decode");
    [added_calls; repeat split; left; reflexivity|].
  rewrite Hparse.
  run_h; added_calls;
    (split; [|split; [|reflexivity]]);
    first [ left; reflexivity
          | right; split; reflexivity
          | right; eexists; split; [reflexivity|];
            split; [decided; reflexivity | split; reflexivity] ].
Qed.

End MainFacts.

(** X14.  What [main] does to the credential file: nothing unless it
    scans.  A scanned code is written to the file, and kept there if the
    write works; if it is not empty it is the code [connect] is called
    with, whether the write worked or not, and if it is empty the process
    exits with status 1.  A scan that is refused ends the process with
    status 1, the disk untouched and the reason logged. *)
Theorem main_scan_saves_code (w : World) (p : Process) :
  (existsb isScan (added p (Client.boot w p)) = false ->
   disk (Client.boot w p) = disk p
   /\ existsb isFsWrite (added p (Client.boot w p)) = false)
  /\ (forall c,
         qrScan w (scans p) = Scanned c ->
         existsb isScan (added p (Client.boot w p)) = true ->
         filter isFsWrite (added p (Client.boot w p)) = [FsWriteFileSync c]
         /\ (writeFault (disk p) = None ->
             file (disk (Client.boot w p)) = Some c)
         /\ (c <> "" ->
             filter isConnect (added p (Client.boot w p))
             = [Connect (JS.VStr c)])
         /\ (c = "" -> exited (Client.boot w p) = Some 1))
  /\ (forall message,
         qrScan w (scans p) = ScanFailed message ->
         existsb isScan (added p (Client.boot w p)) = true ->
         exited (Client.boot w p) = Some 1
         /\ disk (Client.boot w p) = disk p
         /\ In (Print Logger Error ("[启动] 失败: " ++ message))
              (added p (Client.boot w p))).
Proof.
  destruct (parseArgs_pure w (Client.getArgsMap (argv w)))
    as (o & g & Hparse & _).
  destruct p as [cfg [f wf rf uf] cl ex op n sc lp so od os].
  eval_m.
  destruct (JS.includes (argv w) "--verify").
  { added_calls. repeat split; discriminate. }
  destruct (JS.includes (argv w) "--decode").
  { added_calls. repeat split; discriminate. }
  rewrite Hparse.
  run_h; added_calls; eqb_facts;
    (split;
     [ intros H; first [discriminate H | split; reflexivity]
     | split;
       [ intros c Hc Hs; first [discriminate Hs | discriminate Hc | idtac];
         try (inversion Hc; subst; clear Hc;
              repeat split; intros;
              first [reflexivity | discriminate | contradiction
                    | congruence])
       | intros m Hm Hs; first [discriminate Hs | discriminate Hm | idtac];
         try (inversion Hm; subst; clear Hm;
              repeat split; simpl; tauto) ] ]).
Qed.

Lemma main_scan_saves_code_witness :
  filter isFsWrite
    (added (fresh defaults (noFaults None))
       (Client.boot savedWorld (fresh defaults (noFaults None))))
  = [FsWriteFileSync "fresh01"]
  /\ file (disk (Client.boot savedWorld (fresh defaults (noFaults None))))
     = Some "fresh01"
  /\ filter isConnect
       (added (fresh defaults (noFaults None))
          (Client.boot savedWorld (fresh defaults (noFaults None))))
     = [Connect (JS.VStr "fresh01")]
  /\ exited (Client.boot scanRefused (fresh defaults (noFaults None)))
     = Some 1.
Proof.
  assert (Hs : existsb isScan
                 (added (fresh defaults (noFaults None))
                    (Client.boot savedWorld (fresh defaults (noFaults None))))
               = true) by (vm_compute; reflexivity).
  assert (Hr : existsb isScan
                 (added (fresh defaults (noFaults None))
                    (Client.boot scanRefused (fresh defaults (noFaults None))))
               = true) by (vm_compute; reflexivity).
  destruct (proj1 (proj2 (main_scan_saves_code savedWorld
                            (fresh defaults (noFaults None))))
              "fresh01" eq_refl Hs) as (A & B & C & _).
  destruct (proj2 (proj2 (main_scan_saves_code scanRefused
                            (fresh defaults (noFaults None))))
              "timeout" eq_refl Hr) as (D & _).
  split; [exact A|]. split; [exact (B eq_refl)|].
  split; [apply C; discriminate | exact D].
Defined.



Section TwoCopiesFacts.

Variable w : World.

(** Apart from what they print and from the ['disconnected'] listener,
    which only client.js registers, the two copies of [main] do the same:
    the same calls in the same order and the same final state. *)
Lemma boot_copies_agree (p : Process) :
  filter silent (added p (Legacy.boot w p))
  = filter silent (added p (Client.boot w p))
  /\ disk (Legacy.boot w p) = disk (Client.boot w p)
  /\ config (Legacy.boot w p) = config (Client.boot w p)
  /\ exited (Legacy.boot w p) = exited (Client.boot w p)
  /\ options (Legacy.boot w p) = options (Client.boot w p)
  /\ loginPending (Legacy.boot w p) = loginPending (Client.boot w p)
  /\ socket (Legacy.boot w p) = socket (Client.boot w p)
  /\ onSigint (Legacy.boot w p) = onSigint (Client.boot w p)
  /\ scans (Legacy.boot w p) = scans (Client.boot w p)
  /\ onDisconnected (Legacy.boot w p) = onDisconnected p.
Proof.
  destruct (parseArgs_pure w (Client.getArgsMap (argv w)))
    as (o & g & Hparse & _).
  destruct p as [cfg [f wf rf uf] cl ex op n sc lp so od os].
  eval_m.
  destruct (JS.includes (argv w) "--verify");
    [repeat split; reflexivity|].
  destruct (JS.includes (argv w) "--decode");
    [repeat split; reflexivity|].
  rewrite Hparse.
  run_h;
    unfold added; cbv beta iota zeta delta [calls];
    rewrite <- ?app_assoc;
    rewrite ?skipn_app, ?Nat.sub_diag, ?skipn_all;
    repeat split.
Qed.

End TwoCopiesFacts.

(** X16.  When [main] connects, its last calls are the startup sequence:
    the status bar is set up and the startup line logged before [connect],
    with the platform and the intervals of [CONFIG] as [parseArgs] left
    them.  The screen is cleared only on a terminal and only after a QR
    scan, once, and then just before the sequence. *)
Theorem main_startup_sequence (w : World) (p : Process) (c : JS.value) :
  filter isConnect (added p (Client.boot w p)) = [Connect c] ->
  exists pre,
    added p (Client.boot w p)
    = (pre ++ startupSequence (config (Client.boot w p)) c)%list
    /\ (existsb isStdoutWrite pre = false
        \/ (isTTY w = true
            /\ existsb isScan pre = true
            /\ exists pre',
                pre = (pre' ++ [StdoutWrite
                                  (JS.utf8 [27] ++ "[2J"
                                     ++ JS.utf8 [27] ++ "[H")])%list
                /\ existsb isStdoutWrite pre' = false))
    /\ (isTTY w = true -> existsb isScan pre = true ->
        existsb isStdoutWrite pre = true).
Proof.
  destruct (parseArgs_pure w (Client.getArgsMap (argv w)))
    as (o & g & Hparse & _).
  destruct p as [cfg [f wf rf uf] cl ex op n sc lp so od os].
  unfold startupSequence.
  eval_m.
  destruct (JS.includes (argv w) "--verify");
    [added_calls; discriminate|].
  destruct (JS.includes (argv w) "--decode");
    [added_calls; discriminate|].
  rewrite Hparse.
  run_h; added_calls; intros H; try discriminate H;
    inversion H; subst; clear H;
    cbn [config app skipn];
    match goal with
    | |- exists pre, ?l = _ /\ _ =>
        exists (firstn (length l - 5) l)
    end;
    cbn [length Nat.sub firstn existsb isStdoutWrite isScan orb];
    (split; [reflexivity|]);
    (split;
     [ first [ left; reflexivity
             | right; split; [reflexivity|]; split; [reflexivity|];
               match goal with
               | |- exists pre', ?l = _ /\ _ => exists (removelast l)
               end;
               split; reflexivity ]
     | intros Ht Hs; first [reflexivity | discriminate] ]).
Qed.

Lemma main_startup_sequence_witness :
  exists pre,
    added (fresh defaults (noFaults None)) connected
    = (pre ++ startupSequence (mkCONFIG "qq" 15000 1000)
                (JS.VStr "abc123"))%list.
Proof.
  destruct (main_startup_sequence sampleWorld
              (fresh defaults (noFaults None)) (JS.VStr "abc123") eq_refl)
    as (pre & E & _).
  exists pre. exact E.
Defined.

(** ** Whole runs *)

Section RunFacts.

Variable w : World.

Lemma filter_silent_connect (l : list Call) :
  filter isConnect (filter silent l) = filter isConnect l.
Proof.
  induction l as [|c l IH]; [reflexivity|].
  destruct c; simpl; rewrite ?IH; reflexivity.
Qed.

Lemma connects_app (a b : list Call) :
  connects (a ++ b) = (connects a + connects b)%nat.
Proof. unfold connects. rewrite filter_app. apply length_app. Qed.

(** One event delivered to client.js: either it starts no loop, or it is
    the login success, which starts one round of loops and settles the
    process.  The configuration is not touched. *)
Lemma client_dispatch_round (e : Event) (q : Process) :
  exists l,
    calls (dispatch Client.handlers e q) = (calls q ++ l)%list
    /\ config (dispatch Client.handlers e q) = config q
    /\ ((filter isLoopStart l = []
         /\ (settled q -> settled (dispatch Client.handlers e q)))
        \/ (l = loopsStarted (farmCheckInterval (config q))
            /\ settled (dispatch Client.handlers e q))).
Proof.
  destruct q as [cfg [f wf rf uf] cl ex [oc oq ou] n sc lp so od os].
  unfold dispatch, settle, settled, loopsStarted.
  cbn [exited loginPending onDisconnected onSigint config farmCheckInterval].
  destruct ex as [status|].
  { exists []. rewrite app_nil_r. simpl. auto. }
  destruct e as [|reason|c|];
    cbn [loginSuccess loginError disconnected sigint Client.handlers];
    run_h; eexists;
    (split;
     [ first [ rewrite <- ?app_assoc; reflexivity
             | symmetry; apply app_nil_r ]
     | split; [reflexivity|] ]);
    first [ right; split; [reflexivity | right; reflexivity]
          | left; split; [reflexivity | tauto]
          | left; split; [reflexivity | intros _; left; discriminate] ].
Qed.

(** Over any sequence of events client.js starts no loop or exactly one
    round of them. *)
Lemma client_deliver_round (events : list Event) :
  forall q, exists l,
    calls (deliver Client.handlers events q) = (calls q ++ l)%list
    /\ (filter isLoopStart l = []
        \/ filter isLoopStart l
           = filter isLoopStart
               (loopsStarted (farmCheckInterval (config q)))).
Proof.
  induction events as [|e events IH]; intros q.
  - exists []. split; [symmetry; apply app_nil_r | left; reflexivity].
  - change (deliver Client.handlers (e :: events) q)
      with (deliver Client.handlers events (dispatch Client.handlers e q)).
    destruct (client_dispatch_round e q) as (l & E & C & [(L & S)|(L & S)]).
    + destruct (IH (dispatch Client.handlers e q)) as (l' & E' & R).
      exists (l ++ l')%list. split.
      * rewrite E', E, app_assoc. reflexivity.
      * rewrite filter_app, L, C in *. exact R.
    + destruct (client_deliver_settled events _ S) as (l' & E' & R).
      exists (l ++ l')%list. split.
      * rewrite E', E, app_assoc. reflexivity.
      * right. rewrite filter_app, (existsb_false_filter _ _ R), app_nil_r, L.
        reflexivity.
Qed.

(** One event delivered to the second copy: a call of [connect] uses up
    the one reconnection. *)
Lemma legacy_dispatch_connects (e : Event) (q : Process) :
  exists l,
    calls (dispatch (Legacy.handlers w) e q) = (calls q ++ l)%list
    /\ (connects l + retries (dispatch (Legacy.handlers w) e q)
        <= retries q)%nat.
Proof.
  destruct q as [cfg [f wf rf uf] cl ex [oc oq ou] n sc lp so od os].
  unfold dispatch, settle, retries.
  cbn [exited loginPending onDisconnected onSigint options useSavedCode].
  destruct ex as [status|].
  { exists []. rewrite app_nil_r. simpl. split; [reflexivity | lia]. }
  destruct e as [|reason|c|];
    cbn [loginSuccess loginError disconnected sigint Legacy.handlers];
    run_h; eexists;
    (split;
     [ first [ rewrite <- ?app_assoc; reflexivity
             | symmetry; apply app_nil_r ]
     | unfold connects; simpl; lia ]).
Qed.

Lemma legacy_deliver_connects (events : list Event) :
  forall q, exists l,
    calls (deliver (Legacy.handlers w) events q) = (calls q ++ l)%list
    /\ (connects l <= retries q)%nat.
Proof.
  induction events as [|e events IH]; intros q.
  - exists []. split; [symmetry; apply app_nil_r | unfold connects; simpl; lia].
  - change (deliver (Legacy.handlers w) (e :: events) q)
      with (deliver (Legacy.handlers w) events
              (dispatch (Legacy.handlers w) e q)).
    destruct (legacy_dispatch_connects e q) as (l & E & C).
    destruct (IH (dispatch (Legacy.handlers w) e q)) as (l' & E' & C').
    exists (l ++ l')%list. split.
    + rewrite E', E, app_assoc. reflexivity.
    + rewrite connects_app. lia.
Qed.

(** [main] of the second copy only adds calls. *)
Lemma legacy_boot_calls (p : Process) :
  exists l, calls (Legacy.boot w p) = (calls p ++ l)%list.
Proof.
  destruct (parseArgs_pure w (Client.getArgsMap (argv w)))
    as (o & g & Hparse & _).
  destruct p as [cfg [f wf rf uf] cl ex op n sc lp so od os].
  eval_m.
  destruct (JS.includes (argv w) "--verify");
    [rewrite <- ?app_assoc; eexists; reflexivity|].
  destruct (JS.includes (argv w) "--decode");
    [rewrite <- ?app_assoc; eexists; reflexivity|].
  rewrite Hparse.
  run_h; rewrite <- ?app_assoc; eexists; reflexivity.
Qed.

(** SIGINT in the second copy: the same shutdown as [close] of client.js,
    printed differently. *)
Lemma legacy_sigint_run (q : Process) :
  exited q = None ->
  onSigint q = true ->
  filter silent (added q (dispatch (Legacy.handlers w) SIGINT q))
  = filter silent (closePath (socket q))
  /\ exited (dispatch (Legacy.handlers w) SIGINT q) = Some 0
  /\ disk (dispatch (Legacy.handlers w) SIGINT q) = disk q.
Proof.
  destruct q as [cfg [f wf rf uf] cl ex [oc oq ou] n sc lp so od os].
  simpl exited. simpl onSigint. intros -> ->.
  unfold dispatch, settle, closePath.
  cbn [exited onSigint sigint Legacy.handlers socket].
  run_h; added_calls; repeat split.
Qed.

(** The second copy has no listener for ['disconnected']. *)
Lemma legacy_deliver_disconnected (events : list Event) :
  forallb isDisconnectedEvent events = true ->
  forall q, onDisconnected q = false ->
            deliver (Legacy.handlers w) events q = q.
Proof.
  induction events as [|e events IH]; intros Hall q Hq; [reflexivity|].
  simpl in Hall. apply andb_true_iff in Hall. destruct Hall as (He & Hall).
  destruct e as [|reason|c|]; try discriminate He.
  change (deliver (Legacy.handlers w) (Disconnected c :: events) q)
    with (deliver (Legacy.handlers w) events
            (dispatch (Legacy.handlers w) (Disconnected c) q)).
  assert (D : dispatch (Legacy.handlers w) (Disconnected c) q = q).
  { unfold dispatch. rewrite Hq. destruct (exited q); reflexivity. }
  rewrite D. apply IH; assumption.
Qed.

End RunFacts.

(** X17.  [main] calls [connect] at most once, with a code that is not
    empty, and then returns without exiting, the code being the one of the
    options the callbacks see.  When it exits, the status is 1 and
    [connect] has not been called.  It never removes the credential
    file. *)
Theorem main_connects_at_most_once (w : World) (p : Process) :
  (filter isConnect (added p (Client.boot w p)) = []
   \/ exists c,
       filter isConnect (added p (Client.boot w p)) = [Connect c]
       /\ JS.truthy c = true
       /\ code (options (Client.boot w p)) = c
       /\ exited (Client.boot w p) = exited p)
  /\ (exited (Client.boot w p) = exited p
      \/ (exited (Client.boot w p) = Some 1
          /\ filter isConnect (added p (Client.boot w p)) = []))
  /\ existsb isFsUnlink (added p (Client.boot w p)) = false.
Proof. exact (boot_connect w p). Qed.

(** X18.  Apart from what they print and from the ['disconnected']
    listener, which only client.js registers, the two copies of [main] do
    the same: the same calls in the same order and the same final state. *)
Theorem main_copies_agree (w : World) (p : Process) :
  filter silent (added p (Legacy.boot w p))
  = filter silent (added p (Client.boot w p))
  /\ disk (Legacy.boot w p) = disk (Client.boot w p)
  /\ config (Legacy.boot w p) = config (Client.boot w p)
  /\ exited (Legacy.boot w p) = exited (Client.boot w p)
  /\ options (Legacy.boot w p) = options (Client.boot w p)
  /\ loginPending (Legacy.boot w p) = loginPending (Client.boot w p)
  /\ socket (Legacy.boot w p) = socket (Client.boot w p)
  /\ onSigint (Legacy.boot w p) = onSigint (Client.boot w p)
  /\ scans (Legacy.boot w p) = scans (Client.boot w p)
  /\ onDisconnected (Legacy.boot w p) = onDisconnected p.
Proof. exact (boot_copies_agree w p). Qed.

(** X19.  Over a whole run of client.js, whatever events arrive and in
    whatever order, [connect] is called at most once and the loops are
    started either not at all or in exactly one round, the one of the
    login success with the own-farm interval [main] has set. *)
Theorem client_run_one_round
        (w : World) (events : list Event) (p : Process) :
  (connects (added p (Client.run w events p)) <= 1)%nat
  /\ (filter isLoopStart (added p (Client.run w events p)) = []
      \/ filter isLoopStart (added p (Client.run w events p))
         = filter isLoopStart
             (loopsStarted
                (farmCheckInterval (config (Client.boot w p))))).
Proof.
  unfold Client.run.
  destruct (boot_starts_no_loop w p) as (l0 & E0 & L0).
  pose proof (boot_connect w p) as (C0 & _).
  rewrite (added_app _ _ _ E0) in C0.
  split.
  - destruct (client_deliver_no_connect events (Client.boot w p))
      as (l & E & C).
    rewrite E0, <- app_assoc in E.
    rewrite (added_app _ _ _ E), connects_app.
    unfold connects at 2. rewrite (existsb_false_filter _ _ C).
    unfold connects.
    destruct C0 as [C0|(c & C0 & _)]; rewrite C0; simpl; lia.
  - destruct (client_deliver_round events (Client.boot w p))
      as (l & E & R).
    rewrite E0, <- app_assoc in E.
    rewrite (added_app _ _ _ E), filter_app,
      (existsb_false_filter _ _ L0).
    exact R.
Qed.

(** X20.  Over a whole run of the second copy [connect] is called at most
    twice: once by [main] and once more by the failure callback, which
    reconnects only while the code in use is the saved one and then marks
    it as no longer saved. *)
Theorem legacy_run_reconnects_once
        (w : World) (events : list Event) (p : Process) :
  (connects (added p (Legacy.run w events p))
   <= 1 + retries (Legacy.boot w p))%nat
  /\ (connects (added p (Legacy.run w events p)) <= 2)%nat.
Proof.
  unfold Legacy.run.
  destruct (legacy_boot_calls w p) as (l0 & E0).
  destruct (legacy_deliver_connects w events (Legacy.boot w p))
    as (l & E & C).
  assert (C0 : (connects l0 <= 1)%nat).
  { pose proof (boot_connect w p) as (H & _).
    pose proof (boot_copies_agree w p) as (A & _).
    rewrite (added_app _ _ _ E0) in A.
    unfold connects. rewrite <- filter_silent_connect, A,
      filter_silent_connect.
    destruct H as [H|(c & H & _)]; rewrite H; simpl; lia. }
  rewrite E0, <- app_assoc in E.
  rewrite (added_app _ _ _ E), connects_app.
  assert (R : (retries (Legacy.boot w p) <= 1)%nat)
    by (unfold retries; destruct (useSavedCode _); lia).
  lia.
Qed.

(** X21.  In the second copy SIGINT runs the same shutdown as [close] of
    client.js, printed differently, and exits with status 0; a dropped
    connection is not answered at all, since no listener for
    ['disconnected'] is registered: the process stays as [main] left
    it. *)
Theorem legacy_shutdown
        (w : World) (p : Process) (events : list Event) :
  exited (Legacy.boot w p) = None ->
  onSigint (Legacy.boot w p) = true ->
  onDisconnected p = false ->
  forallb isDisconnectedEvent events = true ->
  Legacy.run w events p = Legacy.boot w p
  /\ filter silent
       (added (Legacy.boot w p) (Legacy.run w (events ++ [SIGINT]) p))
     = filter silent (closePath (socket (Legacy.boot w p)))
  /\ exited (Legacy.run w (events ++ [SIGINT]) p) = Some 0
  /\ disk (Legacy.run w (events ++ [SIGINT]) p) = disk (Legacy.boot w p).
Proof.
  intros He Hs Hd Hall.
  assert (Hd' : onDisconnected (Legacy.boot w p) = false).
  { pose proof (boot_copies_agree w p) as H.
    repeat (destruct H as (_ & H)). rewrite H. exact Hd. }
  unfold Legacy.run.
  rewrite deliver_app,
    (legacy_deliver_disconnected w events Hall _ Hd').
  split; [reflexivity|].
  exact (legacy_sigint_run w _ He Hs).
Qed.

Lemma legacy_shutdown_witness :
  Legacy.run savedWorld [Disconnected 1006]
    (fresh defaults (noFaults (Some "old123")))
  = legacySaved
  /\ exited (Legacy.run savedWorld [Disconnected 1006; SIGINT]
               (fresh defaults (noFaults (Some "old123"))))
     = Some 0.
Proof.
  destruct (legacy_shutdown savedWorld
              (fresh defaults (noFaults (Some "old123")))
              [Disconnected 1006] eq_refl eq_refl eq_refl eq_refl)
    as (A & _ & B & _).
  split; [exact A | exact B].
Defined.


